(** * Mortpool: the accounting and lifecycle engine of the mortgage protocol

    A shallow embedding of the Solidity contracts
    [MortgagePool.sol], [PropertyNFT.sol] and [MortgageManager.sol],
    and the properties of the pool ledger and of the loan lifecycle.

    - [uint256] values are [N] with Solidity 0.8 checked arithmetic: an
      overflow, an underflow or a division by zero reverts.
    - A contract call either returns the new state or reverts with an error;
      a reverted call leaves no trace ([transact]).
    - Solidity mappings are [gmap]s read with a default value. *)

From Stdlib Require Import NArith Lia.
From stdpp Require Import gmap strings list.

Local Open Scope N_scope.

(** ** Errors and the revert monad *)

Inductive Error : Type :=
  (* compiler panics *)
  | PanicArithmetic            (* Panic(0x11): overflow or underflow *)
  | PanicDivisionByZero        (* Panic(0x12) *)
  (* OpenZeppelin guards *)
  | ReentrancyGuardReentrantCall
  | OwnableUnauthorizedAccount
  | ERC721InvalidReceiver
  | ERC721NonexistentToken
  | ERC721InsufficientApproval
  | ERC721IncorrectOwner
  (* MortgagePool *)
  | MustDepositETH             (* "Must deposit ETH" *)
  | InsufficientShares         (* "Insufficient shares" *)
  | MustWithdrawShares         (* "Must withdraw > 0 shares" *)
  | LiquidityLocked            (* "Insufficient liquidity (funds locked in mortgages)" *)
  | NotAuthorized              (* "Not authorized" *)
  | InsufficientLiquidity      (* "Insufficient liquidity" *)
  | ETHTransferFailed          (* "ETH transfer failed" *)
  | PaymentAmountMismatch      (* "Payment amount mismatch" *)
  | InsufficientInsuranceReserve (* "Insufficient insurance reserve" *)
  (* PropertyNFT *)
  | PropertyDoesNotExist       (* "Property does not exist" *)
  (* MortgageManager *)
  | PropertyNotListed          (* "Property not listed" *)
  | PropertyAlreadyMortgaged   (* "Property already mortgaged" *)
  | InsufficientDownPayment    (* "Insufficient down payment (min 10%)" *)
  | InsufficientPoolLiquidity  (* "Insufficient pool liquidity" *)
  | InvalidStatus              (* "Invalid status" *)
  | MortgageNotActive          (* "Mortgage not active" *)
  | NotTheBorrower             (* "Not the borrower" *)
  | InsufficientPayment        (* "Insufficient payment" *)
  | RateTooHigh.               (* "Rate too high (max 20%)" *)

Inductive result (A : Type) : Type :=
  | Ok (a : A)
  | Revert (e : Error).
Arguments Ok {A} a.
Arguments Revert {A} e.

Definition bind {A B : Type} (r : result A) (k : A -> result B) : result B :=
  match r with
  | Ok a => k a
  | Revert e => Revert e
  end.

Notation "'let!' x ':=' e 'in' k" := (bind e (fun x => k))
  (at level 10, x pattern, e at level 100, k at level 200).

Definition require (cond : bool) (e : Error) : result unit :=
  if cond then Ok tt else Revert e.

(** A transaction is atomic: when the call reverts the state is the one
    before the call. *)
Definition transact {S : Type} (call : S -> result S) (s : S) : S * option Error :=
  match call s with
  | Ok s' => (s', None)
  | Revert e => (s, Some e)
  end.

(** ** Checked [uint256] arithmetic *)

Definition UINT256_LIMIT : N := 2 ^ 256.

Definition add (a b : N) : result N :=
  if a + b <? UINT256_LIMIT then Ok (a + b) else Revert PanicArithmetic.

Definition sub (a b : N) : result N :=
  if b <=? a then Ok (a - b) else Revert PanicArithmetic.

Definition mul (a b : N) : result N :=
  if a * b <? UINT256_LIMIT then Ok (a * b) else Revert PanicArithmetic.

Definition div (a b : N) : result N :=
  if b =? 0 then Revert PanicDivisionByZero else Ok (a / b).

(** ** Call environment *)

Definition address : Type := N.

(** [recipient_accepts] is the outcome of the low-level value transfer
    [to.call{value: v}("")] of the transaction, as far as the recipient
    decides it: the recipient runs no nested call into these contracts. *)
Record Env : Type := mkEnv {
  msg_sender : address;
  block_timestamp : N;
  recipient_accepts : bool
}.

(** Reading a Solidity mapping: a missing key holds the zero value. *)
Definition mapping_get {V : Type} (zero : V) (m : gmap N V) (k : N) : V :=
  default zero (m !! k).

(** ** MortgagePool.sol *)

Inductive PoolEvent : Type :=
  | LiquidityDeposited (provider : address) (amount shares : N)
  | LiquidityWithdrawn (provider : address) (amount shares : N)
  | MortgageFunded (borrower : address) (amount : N)
  | MortgageRepayment (principal interest : N)
  | InsurancePayout (borrower : address) (amount : N).

(** The storage of the pool, its ether balance and the events it has
    emitted (most recent first). *)
Record Pool : Type := mkPool {
  totalLiquidity : N;
  totalShares : N;
  insuranceReserve : N;
  activeMortgages : N;
  totalInterestEarned : N;
  lpShares : gmap address N;
  lpDepositTimestamp : gmap address N;
  authorizedBorrowers : gmap address bool;
  pool_owner : address;
  pool_entered : bool;
  pool_balance : N;
  pool_events : list PoolEvent
}.

Definition INSURANCE_RATE : N := 200.
Definition BASIS_POINTS : N := 10000.

(** [constructor() Ownable(msg.sender)] *)
Definition pool_constructor (deployer : address) : Pool :=
  {| totalLiquidity := 0; totalShares := 0; insuranceReserve := 0;
     activeMortgages := 0; totalInterestEarned := 0;
     lpShares := ∅; lpDepositTimestamp := ∅; authorizedBorrowers := ∅;
     pool_owner := deployer; pool_entered := false; pool_balance := 0;
     pool_events := [] |}.

Definition pool_set_entered (b : bool) (p : Pool) : Pool :=
  {| totalLiquidity := totalLiquidity p; totalShares := totalShares p;
     insuranceReserve := insuranceReserve p; activeMortgages := activeMortgages p;
     totalInterestEarned := totalInterestEarned p;
     lpShares := lpShares p; lpDepositTimestamp := lpDepositTimestamp p;
     authorizedBorrowers := authorizedBorrowers p;
     pool_owner := pool_owner p; pool_entered := b; pool_balance := pool_balance p;
     pool_events := pool_events p |}.

(** The [nonReentrant] modifier of [ReentrancyGuard]. *)
Definition pool_nonReentrant (body : Pool -> result Pool) (p : Pool) : result Pool :=
  if pool_entered p then Revert ReentrancyGuardReentrantCall
  else
    let! p' := body (pool_set_entered true p) in
    Ok (pool_set_entered false p').

(** The [onlyOwner] modifier of [Ownable]. *)
Definition pool_onlyOwner (env : Env) (p : Pool) : result unit :=
  require (msg_sender env =? pool_owner p) OwnableUnauthorizedAccount.

(** [depositLiquidity() external payable nonReentrant]; [value] is [msg.value]. *)
Definition depositLiquidity (env : Env) (value : N) : Pool -> result Pool :=
  pool_nonReentrant (fun p =>
    let! _ := require (0 <? value) MustDepositETH in
    let! shares :=
      if totalShares p =? 0 then Ok value
      else
        let! n := mul value (totalShares p) in
        div n (totalLiquidity p) in
    let! n := mul value INSURANCE_RATE in
    let! insuranceAmount := div n BASIS_POINTS in
    let! reserve' := add (insuranceReserve p) insuranceAmount in
    let! lp' := add (mapping_get 0 (lpShares p) (msg_sender env)) shares in
    let! shares' := add (totalShares p) shares in
    let! liquidity' := add (totalLiquidity p) value in
    Ok {| totalLiquidity := liquidity'; totalShares := shares';
          insuranceReserve := reserve'; activeMortgages := activeMortgages p;
          totalInterestEarned := totalInterestEarned p;
          lpShares := <[msg_sender env := lp']> (lpShares p);
          lpDepositTimestamp :=
            <[msg_sender env := block_timestamp env]> (lpDepositTimestamp p);
          authorizedBorrowers := authorizedBorrowers p;
          pool_owner := pool_owner p; pool_entered := pool_entered p;
          pool_balance := pool_balance p + value;
          pool_events :=
            LiquidityDeposited (msg_sender env) value shares :: pool_events p |}).

(** The low-level call [to.call{value: amount}("")] made by the pool: it
    fails when the pool holds less ether than [amount] or when the recipient
    rejects the transfer. *)
Definition pool_send_value (env : Env) (amount : N) (p : Pool) : bool :=
  (amount <=? pool_balance p) && recipient_accepts env.

(** [withdrawLiquidity(uint256 shares) external nonReentrant] *)
Definition withdrawLiquidity (env : Env) (shares : N) : Pool -> result Pool :=
  pool_nonReentrant (fun p =>
    let held := mapping_get 0 (lpShares p) (msg_sender env) in
    let! _ := require (shares <=? held) InsufficientShares in
    let! _ := require (0 <? shares) MustWithdrawShares in
    let! n := mul shares (totalLiquidity p) in
    let! ethAmount := div n (totalShares p) in
    let! available := sub (totalLiquidity p) (activeMortgages p) in
    let! _ := require (ethAmount <=? available) LiquidityLocked in
    let! lp' := sub held shares in
    let! shares' := sub (totalShares p) shares in
    let! liquidity' := sub (totalLiquidity p) ethAmount in
    let! _ := require (pool_send_value env ethAmount p) ETHTransferFailed in
    Ok {| totalLiquidity := liquidity'; totalShares := shares';
          insuranceReserve := insuranceReserve p; activeMortgages := activeMortgages p;
          totalInterestEarned := totalInterestEarned p;
          lpShares := <[msg_sender env := lp']> (lpShares p);
          lpDepositTimestamp := lpDepositTimestamp p;
          authorizedBorrowers := authorizedBorrowers p;
          pool_owner := pool_owner p; pool_entered := pool_entered p;
          pool_balance := pool_balance p - ethAmount;
          pool_events :=
            LiquidityWithdrawn (msg_sender env) ethAmount shares :: pool_events p |}).

(** [fundMortgage(address borrower, uint256 amount) external nonReentrant] *)
Definition fundMortgage (env : Env) (borrower : address) (amount : N)
  : Pool -> result Pool :=
  pool_nonReentrant (fun p =>
    let! _ := require (mapping_get false (authorizedBorrowers p) (msg_sender env))
                NotAuthorized in
    let! available := sub (totalLiquidity p) (activeMortgages p) in
    let! _ := require (amount <=? available) InsufficientLiquidity in
    let! active' := add (activeMortgages p) amount in
    let! _ := require (pool_send_value env amount p) ETHTransferFailed in
    Ok {| totalLiquidity := totalLiquidity p; totalShares := totalShares p;
          insuranceReserve := insuranceReserve p; activeMortgages := active';
          totalInterestEarned := totalInterestEarned p;
          lpShares := lpShares p; lpDepositTimestamp := lpDepositTimestamp p;
          authorizedBorrowers := authorizedBorrowers p;
          pool_owner := pool_owner p; pool_entered := pool_entered p;
          pool_balance := pool_balance p - amount;
          pool_events := MortgageFunded borrower amount :: pool_events p |}).

(** [receiveMortgagePayment(uint256 principal, uint256 interest)
     external payable nonReentrant]; [value] is [msg.value]. *)
Definition receiveMortgagePayment (env : Env) (value principal interest : N)
  : Pool -> result Pool :=
  pool_nonReentrant (fun p =>
    let! _ := require (mapping_get false (authorizedBorrowers p) (msg_sender env))
                NotAuthorized in
    let! due := add principal interest in
    let! _ := require (value =? due) PaymentAmountMismatch in
    let! active' := sub (activeMortgages p) principal in
    let! liquidity' := add (totalLiquidity p) value in
    let! earned' := add (totalInterestEarned p) interest in
    Ok {| totalLiquidity := liquidity'; totalShares := totalShares p;
          insuranceReserve := insuranceReserve p; activeMortgages := active';
          totalInterestEarned := earned';
          lpShares := lpShares p; lpDepositTimestamp := lpDepositTimestamp p;
          authorizedBorrowers := authorizedBorrowers p;
          pool_owner := pool_owner p; pool_entered := pool_entered p;
          pool_balance := pool_balance p + value;
          pool_events := MortgageRepayment principal interest :: pool_events p |}).

(** [coverDefault(uint256 amount) external nonReentrant] *)
Definition coverDefault (env : Env) (amount : N) : Pool -> result Pool :=
  pool_nonReentrant (fun p =>
    let! _ := require (mapping_get false (authorizedBorrowers p) (msg_sender env))
                NotAuthorized in
    let! _ := require (amount <=? insuranceReserve p) InsufficientInsuranceReserve in
    let! reserve' := sub (insuranceReserve p) amount in
    let! active' := sub (activeMortgages p) amount in
    Ok {| totalLiquidity := totalLiquidity p; totalShares := totalShares p;
          insuranceReserve := reserve'; activeMortgages := active';
          totalInterestEarned := totalInterestEarned p;
          lpShares := lpShares p; lpDepositTimestamp := lpDepositTimestamp p;
          authorizedBorrowers := authorizedBorrowers p;
          pool_owner := pool_owner p; pool_entered := pool_entered p;
          pool_balance := pool_balance p;
          pool_events := InsurancePayout (msg_sender env) amount :: pool_events p |}).

(** [getShareValue(address provider) external view] *)
Definition getShareValue (provider : address) (p : Pool) : result N :=
  let held := mapping_get 0 (lpShares p) provider in
  if (held =? 0) || (totalShares p =? 0) then Ok 0
  else
    let! n := mul held (totalLiquidity p) in
    div n (totalShares p).

(** [estimatedAPY() external view] *)
Definition estimatedAPY (p : Pool) : N :=
  if totalLiquidity p =? 0 then 0 else 350.

Definition pool_set_authorized (borrower : address) (b : bool) (p : Pool) : Pool :=
  {| totalLiquidity := totalLiquidity p; totalShares := totalShares p;
     insuranceReserve := insuranceReserve p; activeMortgages := activeMortgages p;
     totalInterestEarned := totalInterestEarned p;
     lpShares := lpShares p; lpDepositTimestamp := lpDepositTimestamp p;
     authorizedBorrowers := <[borrower := b]> (authorizedBorrowers p);
     pool_owner := pool_owner p; pool_entered := pool_entered p;
     pool_balance := pool_balance p; pool_events := pool_events p |}.

(** [authorizeBorrower(address borrower) external onlyOwner] *)
Definition authorizeBorrower (env : Env) (borrower : address) (p : Pool) : result Pool :=
  let! _ := pool_onlyOwner env p in
  Ok (pool_set_authorized borrower true p).

(** [revokeBorrower(address borrower) external onlyOwner] *)
Definition revokeBorrower (env : Env) (borrower : address) (p : Pool) : result Pool :=
  let! _ := pool_onlyOwner env p in
  Ok (pool_set_authorized borrower false p).

(** [availableLiquidity() external view] *)
Definition availableLiquidity (p : Pool) : result N :=
  sub (totalLiquidity p) (activeMortgages p).

(** [receive() external payable {}] *)
Definition pool_receive (value : N) (p : Pool) : result Pool :=
  Ok {| totalLiquidity := totalLiquidity p; totalShares := totalShares p;
        insuranceReserve := insuranceReserve p; activeMortgages := activeMortgages p;
        totalInterestEarned := totalInterestEarned p;
        lpShares := lpShares p; lpDepositTimestamp := lpDepositTimestamp p;
        authorizedBorrowers := authorizedBorrowers p;
        pool_owner := pool_owner p; pool_entered := pool_entered p;
        pool_balance := pool_balance p + value; pool_events := pool_events p |}.

(** ** PropertyNFT.sol *)

Record Property : Type := mkProperty {
  propertyAddress : string;
  valueUSD : N;
  property_totalShares : N;
  imageURI : string;
  description : string;
  isListed : bool;
  listedTimestamp : N
}.

Definition zero_property : Property :=
  {| propertyAddress := EmptyString; valueUSD := 0; property_totalShares := 0;
     imageURI := EmptyString; description := EmptyString;
     isListed := false; listedTimestamp := 0 |}.

Inductive NFTEvent : Type :=
  | PropertyMinted (tokenId : N) (propertyAddress : string) (valueUSD totalShares : N)
  | PropertyListed (tokenId timestamp : N)
  | PropertyUnlisted (tokenId : N)
  | Transfer (from to : address) (tokenId : N).

(** The registry: the [properties] mapping of [PropertyNFT], the owner of
    [Ownable], and the custody state of the inherited ERC721 contract
    ([erc721_owners], [erc721_tokenApprovals], [erc721_operatorApprovals]). *)
Record PropertyNFT : Type := mkPropertyNFT {
  tokenIdCounter : N;
  properties : gmap N Property;
  erc721_owners : gmap N address;
  erc721_tokenApprovals : gmap N address;
  erc721_operatorApprovals : gmap (address * address) bool;
  nft_owner : address;
  nft_events : list NFTEvent
}.

(** [_ownerOf(tokenId)]: the zero address for a token that was never minted. *)
Definition _ownerOf (tokenId : N) (t : PropertyNFT) : address :=
  mapping_get 0 (erc721_owners t) tokenId.

Definition nft_onlyOwner (env : Env) (t : PropertyNFT) : result unit :=
  require (msg_sender env =? nft_owner t) OwnableUnauthorizedAccount.

Definition set_property (tokenId : N) (pr : Property) (e : list NFTEvent) (t : PropertyNFT)
  : PropertyNFT :=
  {| tokenIdCounter := tokenIdCounter t;
     properties := <[tokenId := pr]> (properties t);
     erc721_owners := erc721_owners t;
     erc721_tokenApprovals := erc721_tokenApprovals t;
     erc721_operatorApprovals := erc721_operatorApprovals t;
     nft_owner := nft_owner t;
     nft_events := e ++ nft_events t |}.

(** [listProperty(uint256 tokenId) external onlyOwner] *)
Definition listProperty (env : Env) (tokenId : N) (t : PropertyNFT) : result PropertyNFT :=
  let! _ := nft_onlyOwner env t in
  let! _ := require (negb (_ownerOf tokenId t =? 0)) PropertyDoesNotExist in
  let pr := mapping_get zero_property (properties t) tokenId in
  Ok (set_property tokenId
        {| propertyAddress := propertyAddress pr; valueUSD := valueUSD pr;
           property_totalShares := property_totalShares pr;
           imageURI := imageURI pr; description := description pr;
           isListed := true; listedTimestamp := block_timestamp env |}
        [PropertyListed tokenId (block_timestamp env)] t).

(** [unlistProperty(uint256 tokenId) external onlyOwner] *)
Definition unlistProperty (env : Env) (tokenId : N) (t : PropertyNFT) : result PropertyNFT :=
  let! _ := nft_onlyOwner env t in
  let pr := mapping_get zero_property (properties t) tokenId in
  Ok (set_property tokenId
        {| propertyAddress := propertyAddress pr; valueUSD := valueUSD pr;
           property_totalShares := property_totalShares pr;
           imageURI := imageURI pr; description := description pr;
           isListed := false; listedTimestamp := listedTimestamp pr |}
        [PropertyUnlisted tokenId] t).

(** [getProperty(uint256 tokenId) external view] *)
Definition getProperty (tokenId : N) (t : PropertyNFT) : result Property :=
  let! _ := require (negb (_ownerOf tokenId t =? 0)) PropertyDoesNotExist in
  Ok (mapping_get zero_property (properties t) tokenId).

(** Modelled from the spec: the ERC721 base contract that [PropertyNFT]
    inherits (OpenZeppelin, imported by the source, not part of it) provides
    [transferFrom]. The spec's registry contract is
    [transferCustody(from, to, id)], callable once custody or authority has
    been delegated to the caller: the caller must be the holder of the
    token, its approved address or an operator of the holder, the token
    must be held by [from], and the receiver is not the zero address. The
    transfer clears the token approval. *)
Definition isAuthorized (holder spender : address) (tokenId : N) (t : PropertyNFT) : bool :=
  negb (spender =? 0)
  && ((holder =? spender)
      || default false (erc721_operatorApprovals t !! (holder, spender))
      || (mapping_get 0 (erc721_tokenApprovals t) tokenId =? spender)).

Definition transferFrom (env : Env) (from to : address) (tokenId : N) (t : PropertyNFT)
  : result PropertyNFT :=
  let! _ := require (negb (to =? 0)) ERC721InvalidReceiver in
  let holder := _ownerOf tokenId t in
  let! _ := require (negb (holder =? 0)) ERC721NonexistentToken in
  let! _ := require (isAuthorized holder (msg_sender env) tokenId t)
              ERC721InsufficientApproval in
  let! _ := require (holder =? from) ERC721IncorrectOwner in
  Ok {| tokenIdCounter := tokenIdCounter t;
        properties := properties t;
        erc721_owners := <[tokenId := to]> (erc721_owners t);
        erc721_tokenApprovals := delete tokenId (erc721_tokenApprovals t);
        erc721_operatorApprovals := erc721_operatorApprovals t;
        nft_owner := nft_owner t;
        nft_events := Transfer from to tokenId :: nft_events t |}.

(** Modelled from the spec: the delegation of authority over the tokens of
    the caller ([setApprovalForAll] of the ERC721 base contract). *)
Definition setApprovalForAll (env : Env) (operator : address) (approved : bool)
    (t : PropertyNFT) : PropertyNFT :=
  {| tokenIdCounter := tokenIdCounter t;
     properties := properties t;
     erc721_owners := erc721_owners t;
     erc721_tokenApprovals := erc721_tokenApprovals t;
     erc721_operatorApprovals :=
       <[(msg_sender env, operator) := approved]> (erc721_operatorApprovals t);
     nft_owner := nft_owner t;
     nft_events := nft_events t |}.

(** ** MortgageManager.sol *)

Inductive MortgageStatus : Type :=
  | None_       (* [MortgageStatus.None] *)
  | Applied
  | Active
  | PaidOff
  | Defaulted
  | Foreclosed.

#[global] Instance MortgageStatus_eq_dec : EqDecision MortgageStatus.
Proof. solve_decision. Defined.

Record Mortgage : Type := mkMortgage {
  propertyId : N;
  borrower : address;
  propertyValue : N;
  downPayment : N;
  loanAmount : N;
  interestRateBPS : N;
  durationMonths : N;
  monthlyPayment : N;
  startTimestamp : N;
  lastPaymentTimestamp : N;
  totalPaid : N;
  ownershipSharesBPS : N;
  paymentsCount : N;
  status : MortgageStatus
}.

Definition zero_mortgage : Mortgage :=
  {| propertyId := 0; borrower := 0; propertyValue := 0; downPayment := 0;
     loanAmount := 0; interestRateBPS := 0; durationMonths := 0; monthlyPayment := 0;
     startTimestamp := 0; lastPaymentTimestamp := 0; totalPaid := 0;
     ownershipSharesBPS := 0; paymentsCount := 0; status := None_ |}.

Inductive ManagerEvent : Type :=
  | MortgageApplied (propertyId : N) (borrower : address) (loanAmount downPayment : N)
  | MortgageActivated (propertyId : N) (borrower : address)
  | PaymentReceived (propertyId : N) (borrower : address) (amount newOwnershipBPS : N)
  | MortgageCompleted (propertyId : N) (borrower : address)
  | MortgageDefaulted (propertyId : N) (borrower : address)
  | PropertyForeclosed (propertyId : N) (borrower : address).

(** The storage of the manager; [mgr_self] is [address(this)]. *)
Record Manager : Type := mkManager {
  mortgages : gmap N Mortgage;
  borrowerMortgages : gmap address (list N);
  totalActiveMortgages : N;
  defaultInterestRateBPS : N;
  mgr_owner : address;
  mgr_entered : bool;
  mgr_self : address;
  mgr_balance : N;
  mgr_events : list ManagerEvent
}.

(** The manager together with the two contracts it calls. *)
Record World : Type := mkWorld {
  manager : Manager;
  mortgagePool : Pool;
  propertyNFT : PropertyNFT
}.

Definition SECONDS_PER_MONTH : N := 30 * 86400.
Definition LATE_FEE_BPS : N := 500.
Definition GRACE_PERIOD : N := 15 * 86400.
Definition DEFAULT_PERIOD : N := 90 * 86400.

(** [constructor(address _propertyNFT, address payable _mortgagePool)
     Ownable(msg.sender)], deployed at address [self]. *)
Definition manager_constructor (deployer self : address) : Manager :=
  {| mortgages := ∅; borrowerMortgages := ∅; totalActiveMortgages := 0;
     defaultInterestRateBPS := 500; mgr_owner := deployer; mgr_entered := false;
     mgr_self := self; mgr_balance := 0; mgr_events := [] |}.

(** [mortgages[propertyId]] *)
Definition getMortgage (propertyId : N) (w : World) : Mortgage :=
  mapping_get zero_mortgage (mortgages (manager w)) propertyId.

(** [calculateMonthlyPayment(uint256 principal, uint256 annualRateBPS,
     uint256 months) public pure] *)
Definition calculateMonthlyPayment (principal annualRateBPS months : N) : result N :=
  if months =? 0 then Ok 0
  else
    let! monthlyRateBPS := div annualRateBPS 12 in
    let! n := mul principal annualRateBPS in
    let! n := mul n months in
    let! d := mul BASIS_POINTS 12 in
    let! totalInterest := div n d in
    let! totalPayment := add principal totalInterest in
    div totalPayment months.

(** *** Storage updates *)

Definition set_manager (m : Manager) (w : World) : World :=
  {| manager := m; mortgagePool := mortgagePool w; propertyNFT := propertyNFT w |}.

Definition set_pool (p : Pool) (w : World) : World :=
  {| manager := manager w; mortgagePool := p; propertyNFT := propertyNFT w |}.

Definition set_nft (t : PropertyNFT) (w : World) : World :=
  {| manager := manager w; mortgagePool := mortgagePool w; propertyNFT := t |}.

(** [mortgages[propertyId] = m] *)
Definition set_mortgage (propertyId : N) (m : Mortgage) (w : World) : World :=
  let g := manager w in
  set_manager
    {| mortgages := <[propertyId := m]> (mortgages g);
       borrowerMortgages := borrowerMortgages g;
       totalActiveMortgages := totalActiveMortgages g;
       defaultInterestRateBPS := defaultInterestRateBPS g;
       mgr_owner := mgr_owner g; mgr_entered := mgr_entered g; mgr_self := mgr_self g;
       mgr_balance := mgr_balance g; mgr_events := mgr_events g |} w.

(** [borrowerMortgages[who].push(propertyId)] *)
Definition push_borrowerMortgage (who : address) (propertyId : N) (w : World) : World :=
  let g := manager w in
  set_manager
    {| mortgages := mortgages g;
       borrowerMortgages :=
         <[who := mapping_get [] (borrowerMortgages g) who ++ [propertyId]]>
           (borrowerMortgages g);
       totalActiveMortgages := totalActiveMortgages g;
       defaultInterestRateBPS := defaultInterestRateBPS g;
       mgr_owner := mgr_owner g; mgr_entered := mgr_entered g; mgr_self := mgr_self g;
       mgr_balance := mgr_balance g; mgr_events := mgr_events g |} w.

Definition set_totalActiveMortgages (n : N) (w : World) : World :=
  let g := manager w in
  set_manager
    {| mortgages := mortgages g; borrowerMortgages := borrowerMortgages g;
       totalActiveMortgages := n;
       defaultInterestRateBPS := defaultInterestRateBPS g;
       mgr_owner := mgr_owner g; mgr_entered := mgr_entered g; mgr_self := mgr_self g;
       mgr_balance := mgr_balance g; mgr_events := mgr_events g |} w.

Definition set_defaultInterestRateBPS (r : N) (w : World) : World :=
  let g := manager w in
  set_manager
    {| mortgages := mortgages g; borrowerMortgages := borrowerMortgages g;
       totalActiveMortgages := totalActiveMortgages g;
       defaultInterestRateBPS := r;
       mgr_owner := mgr_owner g; mgr_entered := mgr_entered g; mgr_self := mgr_self g;
       mgr_balance := mgr_balance g; mgr_events := mgr_events g |} w.

Definition set_mgr_entered (b : bool) (w : World) : World :=
  let g := manager w in
  set_manager
    {| mortgages := mortgages g; borrowerMortgages := borrowerMortgages g;
       totalActiveMortgages := totalActiveMortgages g;
       defaultInterestRateBPS := defaultInterestRateBPS g;
       mgr_owner := mgr_owner g; mgr_entered := b; mgr_self := mgr_self g;
       mgr_balance := mgr_balance g; mgr_events := mgr_events g |} w.

Definition set_mgr_balance (n : N) (w : World) : World :=
  let g := manager w in
  set_manager
    {| mortgages := mortgages g; borrowerMortgages := borrowerMortgages g;
       totalActiveMortgages := totalActiveMortgages g;
       defaultInterestRateBPS := defaultInterestRateBPS g;
       mgr_owner := mgr_owner g; mgr_entered := mgr_entered g; mgr_self := mgr_self g;
       mgr_balance := n; mgr_events := mgr_events g |} w.

(** [emit e] *)
Definition emit (e : ManagerEvent) (w : World) : World :=
  let g := manager w in
  set_manager
    {| mortgages := mortgages g; borrowerMortgages := borrowerMortgages g;
       totalActiveMortgages := totalActiveMortgages g;
       defaultInterestRateBPS := defaultInterestRateBPS g;
       mgr_owner := mgr_owner g; mgr_entered := mgr_entered g; mgr_self := mgr_self g;
       mgr_balance := mgr_balance g; mgr_events := e :: mgr_events g |} w.

(** [mortgage.status = st] *)
Definition with_status (st : MortgageStatus) (m : Mortgage) : Mortgage :=
  {| propertyId := propertyId m; borrower := borrower m;
     propertyValue := propertyValue m; downPayment := downPayment m;
     loanAmount := loanAmount m; interestRateBPS := interestRateBPS m;
     durationMonths := durationMonths m; monthlyPayment := monthlyPayment m;
     startTimestamp := startTimestamp m;
     lastPaymentTimestamp := lastPaymentTimestamp m;
     totalPaid := totalPaid m; ownershipSharesBPS := ownershipSharesBPS m;
     paymentsCount := paymentsCount m; status := st |}.

(** [mortgage.ownershipSharesBPS = bps] *)
Definition with_ownership (bps : N) (m : Mortgage) : Mortgage :=
  {| propertyId := propertyId m; borrower := borrower m;
     propertyValue := propertyValue m; downPayment := downPayment m;
     loanAmount := loanAmount m; interestRateBPS := interestRateBPS m;
     durationMonths := durationMonths m; monthlyPayment := monthlyPayment m;
     startTimestamp := startTimestamp m;
     lastPaymentTimestamp := lastPaymentTimestamp m;
     totalPaid := totalPaid m; ownershipSharesBPS := bps;
     paymentsCount := paymentsCount m; status := status m |}.

(** The payment bookkeeping of [makePayment]: [totalPaid],
    [lastPaymentTimestamp], [paymentsCount] and [ownershipSharesBPS]. *)
Definition with_payment (paid time count bps : N) (m : Mortgage) : Mortgage :=
  {| propertyId := propertyId m; borrower := borrower m;
     propertyValue := propertyValue m; downPayment := downPayment m;
     loanAmount := loanAmount m; interestRateBPS := interestRateBPS m;
     durationMonths := durationMonths m; monthlyPayment := monthlyPayment m;
     startTimestamp := startTimestamp m;
     lastPaymentTimestamp := time;
     totalPaid := paid; ownershipSharesBPS := bps;
     paymentsCount := count; status := status m |}.

(** The manager calling another contract: [msg.sender] is the manager. *)
Definition as_manager (env : Env) (w : World) : Env :=
  {| msg_sender := mgr_self (manager w);
     block_timestamp := block_timestamp env;
     recipient_accepts := recipient_accepts env |}.

(** The [nonReentrant] modifier of the manager. *)
Definition mgr_nonReentrant (body : World -> result World) (w : World) : result World :=
  if mgr_entered (manager w) then Revert ReentrancyGuardReentrantCall
  else
    let! w' := body (set_mgr_entered true w) in
    Ok (set_mgr_entered false w').

(** *** Origination *)

(** [_activateMortgage(uint256 propertyId) internal] *)
Definition _activateMortgage (env : Env) (propertyId : N) (w : World) : result World :=
  let mortgage := getMortgage propertyId w in
  let! _ := require (bool_decide (status mortgage = Applied)) InvalidStatus in
  let w := set_mortgage propertyId (with_status Active mortgage) w in
  let! n := add (totalActiveMortgages (manager w)) 1 in
  let w := set_totalActiveMortgages n w in
  let! p := fundMortgage (as_manager env w) (borrower mortgage) (loanAmount mortgage)
              (mortgagePool w) in
  let w := set_pool p w in
  let! t := transferFrom (as_manager env w) (mgr_self (manager w)) (borrower mortgage)
              propertyId (propertyNFT w) in
  let! t := unlistProperty (as_manager env w) propertyId t in
  let w := set_nft t w in
  Ok (emit (MortgageActivated propertyId (borrower mortgage)) w).

(** [applyForMortgage(uint256 propertyId, uint256 durationMonths)
     external payable nonReentrant]; [value] is [msg.value], the down
    payment, which stays in the manager. *)
Definition applyForMortgage (env : Env) (value : N) (propertyId months : N)
  : World -> result World :=
  mgr_nonReentrant (fun w =>
    let w := set_mgr_balance (mgr_balance (manager w) + value) w in
    let! property := getProperty propertyId (propertyNFT w) in
    let! _ := require (isListed property) PropertyNotListed in
    let! _ := require (bool_decide (status (getMortgage propertyId w) = None_))
                PropertyAlreadyMortgaged in
    let! n := mul (valueUSD property) 1000 in
    let! minDownPayment := div n BASIS_POINTS in
    let! _ := require (minDownPayment <=? value) InsufficientDownPayment in
    let! loan := sub (valueUSD property) value in
    let! monthly :=
      calculateMonthlyPayment loan (defaultInterestRateBPS (manager w)) months in
    let! available := availableLiquidity (mortgagePool w) in
    let! _ := require (loan <=? available) InsufficientPoolLiquidity in
    let! n := mul value BASIS_POINTS in
    let! initialOwnershipBPS := div n (valueUSD property) in
    let w :=
      set_mortgage propertyId
        {| propertyId := propertyId; borrower := msg_sender env;
           propertyValue := valueUSD property; downPayment := value;
           loanAmount := loan;
           interestRateBPS := defaultInterestRateBPS (manager w);
           durationMonths := months; monthlyPayment := monthly;
           startTimestamp := block_timestamp env;
           lastPaymentTimestamp := block_timestamp env;
           totalPaid := value; ownershipSharesBPS := initialOwnershipBPS;
           paymentsCount := 0; status := Applied |} w in
    let w := push_borrowerMortgage (msg_sender env) propertyId w in
    let w := emit (MortgageApplied propertyId (msg_sender env) loan value) w in
    _activateMortgage env propertyId w).

(** *** Payments *)

(** [_completeMortgage(uint256 propertyId) internal] *)
Definition _completeMortgage (propertyId : N) (w : World) : result World :=
  let mortgage := getMortgage propertyId w in
  let w :=
    set_mortgage propertyId (with_ownership BASIS_POINTS (with_status PaidOff mortgage)) w in
  let! n := sub (totalActiveMortgages (manager w)) 1 in
  let w := set_totalActiveMortgages n w in
  Ok (emit (MortgageCompleted propertyId (borrower mortgage)) w).

(** The amount due in [makePayment] (its local [expectedPayment]): the
    monthly payment, plus the late fee once the time since the last payment
    exceeds a month and the grace period. *)
Definition expectedPayment (env : Env) (mortgage : Mortgage) : result N :=
  let! timeSinceLastPayment :=
    sub (block_timestamp env) (lastPaymentTimestamp mortgage) in
  if SECONDS_PER_MONTH + GRACE_PERIOD <? timeSinceLastPayment then
    let! n := mul (monthlyPayment mortgage) LATE_FEE_BPS in
    let! lateFee := div n BASIS_POINTS in
    add (monthlyPayment mortgage) lateFee
  else Ok (monthlyPayment mortgage).

(** The interest portion in [makePayment] (its local [interestPayment]),
    on the balance that remains before the payment. *)
Definition interestPayment (mortgage : Mortgage) : result N :=
  let! paid := sub (totalPaid mortgage) (downPayment mortgage) in
  let! remainingBalance := sub (loanAmount mortgage) paid in
  let! monthlyInterestRate := div (interestRateBPS mortgage) 12 in
  let! n := mul remainingBalance monthlyInterestRate in
  div n BASIS_POINTS.

(** [makePayment(uint256 propertyId) external payable nonReentrant];
    [value] is [msg.value]. *)
Definition makePayment (env : Env) (value : N) (propertyId : N) : World -> result World :=
  mgr_nonReentrant (fun w =>
    let w := set_mgr_balance (mgr_balance (manager w) + value) w in
    let mortgage := getMortgage propertyId w in
    let! _ := require (bool_decide (status mortgage = Active)) MortgageNotActive in
    let! _ := require (msg_sender env =? borrower mortgage) NotTheBorrower in
    let! expected := expectedPayment env mortgage in
    let! _ := require (expected <=? value) InsufficientPayment in
    let! interest := interestPayment mortgage in
    let! principalPayment := sub expected interest in
    let! paid' := add (totalPaid mortgage) value in
    let! count' := add (paymentsCount mortgage) 1 in
    let! n := mul paid' BASIS_POINTS in
    let! bps := div n (propertyValue mortgage) in
    let bps := if BASIS_POINTS <? bps then BASIS_POINTS else bps in
    let w :=
      set_mortgage propertyId
        (with_payment paid' (block_timestamp env) count' bps mortgage) w in
    let! p := receiveMortgagePayment (as_manager env w) value principalPayment interest
                (mortgagePool w) in
    let w := set_pool p (set_mgr_balance (mgr_balance (manager w) - value) w) in
    let w := emit (PaymentReceived propertyId (msg_sender env) value bps) w in
    if (BASIS_POINTS <=? bps) || (durationMonths mortgage <=? count')
    then _completeMortgage propertyId w
    else Ok w).

(** *** Defaults *)

(** [_foreclose(uint256 propertyId) internal] *)
Definition _foreclose (env : Env) (propertyId : N) (w : World) : result World :=
  let mortgage := getMortgage propertyId w in
  let w := set_mortgage propertyId (with_status Foreclosed mortgage) w in
  let! t := transferFrom (as_manager env w) (borrower mortgage) (mgr_self (manager w))
              propertyId (propertyNFT w) in
  let! t := listProperty (as_manager env w) propertyId t in
  let w := set_nft t w in
  Ok (emit (PropertyForeclosed propertyId (borrower mortgage)) w).

(** [_handleDefault(uint256 propertyId) internal] *)
Definition _handleDefault (env : Env) (propertyId : N) (w : World) : result World :=
  let mortgage := getMortgage propertyId w in
  let w := set_mortgage propertyId (with_status Defaulted mortgage) w in
  let! n := sub (totalActiveMortgages (manager w)) 1 in
  let w := set_totalActiveMortgages n w in
  let! paidAmount := sub (totalPaid mortgage) (downPayment mortgage) in
  let! remainingBalance := sub (loanAmount mortgage) paidAmount in
  let! w :=
    if 0 <? remainingBalance then
      let! insuranceCoverage := div remainingBalance 2 in
      if insuranceCoverage <=? insuranceReserve (mortgagePool w) then
        let! p := coverDefault (as_manager env w) insuranceCoverage (mortgagePool w) in
        Ok (set_pool p w)
      else Ok w
    else Ok w in
  let w := emit (MortgageDefaulted propertyId (borrower mortgage)) w in
  _foreclose env propertyId w.

(** [checkDefault(uint256 propertyId) external] *)
Definition checkDefault (env : Env) (propertyId : N) (w : World) : result World :=
  let mortgage := getMortgage propertyId w in
  let! _ := require (bool_decide (status mortgage = Active)) MortgageNotActive in
  let! timeSinceLastPayment :=
    sub (block_timestamp env) (lastPaymentTimestamp mortgage) in
  if DEFAULT_PERIOD <? timeSinceLastPayment then _handleDefault env propertyId w
  else Ok w.

(** *** Administration and views *)

(** [setDefaultInterestRate(uint256 rateBPS) external onlyOwner] *)
Definition setDefaultInterestRate (env : Env) (rateBPS : N) (w : World) : result World :=
  let! _ := require (msg_sender env =? mgr_owner (manager w)) OwnableUnauthorizedAccount in
  let! _ := require (rateBPS <=? 2000) RateTooHigh in
  Ok (set_defaultInterestRateBPS rateBPS w).

(** [getOwnershipPercentage(uint256 propertyId) external view] *)
Definition getOwnershipPercentage (propertyId : N) (w : World) : N :=
  ownershipSharesBPS (getMortgage propertyId w) / 100.


(** ** Executions *)

(** One successful call of the pool, by any caller. *)
Inductive pool_step : Pool -> Pool -> Prop :=
  | step_deposit env value p p' :
      depositLiquidity env value p = Ok p' -> pool_step p p'
  | step_withdraw env shares p p' :
      withdrawLiquidity env shares p = Ok p' -> pool_step p p'
  | step_fund env borrower amount p p' :
      fundMortgage env borrower amount p = Ok p' -> pool_step p p'
  | step_repayment env value principal interest p p' :
      receiveMortgagePayment env value principal interest p = Ok p' -> pool_step p p'
  | step_cover env amount p p' :
      coverDefault env amount p = Ok p' -> pool_step p p'
  | step_authorize env borrower p p' :
      authorizeBorrower env borrower p = Ok p' -> pool_step p p'
  | step_revoke env borrower p p' :
      revokeBorrower env borrower p = Ok p' -> pool_step p p'
  | step_receive value p p' :
      pool_receive value p = Ok p' -> pool_step p p'.

(** The pool states that calls can produce from the deployed pool. *)
Inductive pool_reachable : Pool -> Prop :=
  | reachable_deployed deployer : pool_reachable (pool_constructor deployer)
  | reachable_step p p' : pool_reachable p -> pool_step p p' -> pool_reachable p'.

(** What every reachable pool satisfies. *)
Record pool_invariant (p : Pool) : Prop := {
  inv_guard : pool_entered p = false;
  inv_capital : activeMortgages p <= totalLiquidity p;
  inv_priced : totalShares p <> 0 -> totalLiquidity p <> 0
}.

(** The ownership share that the payments made so far amount to. *)
Definition ownership_of (mortgage : Mortgage) : N :=
  N.min BASIS_POINTS (totalPaid mortgage * BASIS_POINTS / propertyValue mortgage).

(** The recorded share is at most 100%, and for an active loan it is the
    one its payments amount to. *)
Definition ownership_sound (mortgage : Mortgage) : Prop :=
  ownershipSharesBPS mortgage <= BASIS_POINTS /\
  (status mortgage = Active -> ownershipSharesBPS mortgage = ownership_of mortgage).

(** A sequence of successful payments, on any loans, leading from one
    world to another. *)
Inductive payments : World -> World -> Prop :=
  | payments_none w : payments w w
  | payments_more env value propertyId w w1 w2 :
      payments w w1 ->
      makePayment env value propertyId w1 = Ok w2 ->
      payments w w2.

(** The mortgage record that [makePayment] stores: the payment bookkeeping,
    and the completion when the share or the number of payments is reached. *)
Definition after_payment (env : Env) (value : N) (m : Mortgage) : Mortgage :=
  let paid' := totalPaid m + value in
  let count' := paymentsCount m + 1 in
  let bps := N.min BASIS_POINTS (paid' * BASIS_POINTS / propertyValue m) in
  let m' := with_payment paid' (block_timestamp env) count' bps m in
  if (BASIS_POINTS <=? bps) || (durationMonths m <=? count')
  then with_ownership BASIS_POINTS (with_status PaidOff m')
  else m'.




(** ** A worked scenario

    A lender deposits 100 units; a borrower finances a property of value
    100 with a down payment of 20 over 12 months at 500 bps. *)
Module Scenario.

Definition deployer : address := 1.
Definition lender : address := 7.
Definition alice : address := 9.
Definition managerAddr : address := 100.

Definition call (who : address) (time : N) : Env :=
  {| msg_sender := who; block_timestamp := time; recipient_accepts := true |}.

(** The state after [r], or [s] when [r] reverted. *)
Definition after {S : Type} (s : S) (r : result S) : S :=
  match r with
  | Ok s' => s'
  | Revert _ => s
  end.

(** The pool once the manager is authorized and the lender has deposited. *)
Definition pool_seeded : Pool := Eval vm_compute in
  after (pool_constructor deployer)
    (let! p := authorizeBorrower (call deployer 0) managerAddr (pool_constructor deployer) in
     depositLiquidity (call lender 10) 100 p).

(** The pool after it has lent 80 of the 100 units. *)
Definition pool_lent : Pool := Eval vm_compute in
  after pool_seeded (fundMortgage (call managerAddr 20) alice 80 pool_seeded).

(** The registry with one listed property of the given value, minted to
    the manager, which owns the registry. *)
Definition registry (value : N) : PropertyNFT :=
  {| tokenIdCounter := 1;
     properties :=
       {[ 0 := {| propertyAddress := "123 Blockchain Ave"; valueUSD := value;
                  property_totalShares := 1000; imageURI := EmptyString;
                  description := EmptyString;
                  isListed := true; listedTimestamp := 0 |} ]};
     erc721_owners := {[ 0 := managerAddr ]};
     erc721_tokenApprovals := ∅;
     erc721_operatorApprovals := ∅;
     nft_owner := managerAddr;
     nft_events := [] |}.

Definition listed (value : N) : World :=
  {| manager := manager_constructor deployer managerAddr;
     mortgagePool := pool_seeded;
     propertyNFT := registry value |}.

(** The loan of the scenario, right after origination. *)
Definition financed : World := Eval vm_compute in
  after (listed 100) (applyForMortgage (call alice 20) 20 0 12 (listed 100)).

(** An asset of value 15 financed with a down payment of 1. *)
Definition financed_low : World := Eval vm_compute in
  after (listed 15) (applyForMortgage (call alice 20) 1 0 12 (listed 15)).

(** After one on-time payment of 7. *)
Definition paid_once : World := Eval vm_compute in
  after financed (makePayment (call alice 30) 7 0 financed).

(** The borrower delegates custody of the token to the manager. *)
Definition delegate (w : World) : World :=
  set_nft (setApprovalForAll (call alice 25) managerAddr true (propertyNFT w)) w.

Definition delegated : World := Eval vm_compute in delegate financed.


Definition day : N := 86400.

(** The watchdog runs 91 days after the origination. *)
Definition watchdog : Env := call lender (20 + 91 * day).

Definition foreclosed : World := Eval vm_compute in
  after delegated (checkDefault watchdog 0 delegated).


End Scenario.

(** ** Shares, ether and calls of the pool *)

(** The shares held by all providers together. *)
Definition total_held (held : gmap address N) : N :=
  map_fold (fun _ shares acc => shares + acc) 0 held.

(** One successful call of a function of the pool, by any caller: every
    step of [pool_step] but the plain transfer of ether to the pool. *)
Inductive pool_call : Pool -> Pool -> Prop :=
  | call_deposit env value p p' :
      depositLiquidity env value p = Ok p' -> pool_call p p'
  | call_withdraw env shares p p' :
      withdrawLiquidity env shares p = Ok p' -> pool_call p p'
  | call_fund env borrower amount p p' :
      fundMortgage env borrower amount p = Ok p' -> pool_call p p'
  | call_repayment env value principal interest p p' :
      receiveMortgagePayment env value principal interest p = Ok p' -> pool_call p p'
  | call_cover env amount p p' :
      coverDefault env amount p = Ok p' -> pool_call p p'
  | call_authorize env borrower p p' :
      authorizeBorrower env borrower p = Ok p' -> pool_call p p'
  | call_revoke env borrower p p' :
      revokeBorrower env borrower p = Ok p' -> pool_call p p'.

(** [pool_received donated p]: the deployed pool has become [p], and
    [donated] is the ether it was sent through [receive()] on the way. *)
Inductive pool_received : N -> Pool -> Prop :=
  | received_deployed deployer : pool_received 0 (pool_constructor deployer)
  | received_call donated p p' :
      pool_received donated p -> pool_call p p' -> pool_received donated p'
  | received_plain donated value p p' :
      pool_received donated p -> pool_receive value p = Ok p' ->
      pool_received (donated + value) p'.

(** ** Calls of the manager *)

(** One successful call of a function of the manager, by any caller. *)
Inductive manager_step : World -> World -> Prop :=
  | step_apply env value propertyId months w w' :
      applyForMortgage env value propertyId months w = Ok w' -> manager_step w w'
  | step_payment env value propertyId w w' :
      makePayment env value propertyId w = Ok w' -> manager_step w w'
  | step_check env propertyId w w' :
      checkDefault env propertyId w = Ok w' -> manager_step w w'
  | step_rate env rateBPS w w' :
      setDefaultInterestRate env rateBPS w = Ok w' -> manager_step w w'.

(** The worlds that calls of the manager can produce from its deployment,
    whatever the pool and the registry are then and whatever others do to
    them in between. *)
Inductive world_reachable : World -> Prop :=
  | world_deployed deployer self p t :
      world_reachable
        {| manager := manager_constructor deployer self;
           mortgagePool := p; propertyNFT := t |}
  | world_step w w' : world_reachable w -> manager_step w w' -> world_reachable w'
  | world_others w p t : world_reachable w -> world_reachable (set_nft t (set_pool p w)).

(** The test at the end of [makePayment]: the payment completes the loan. *)
Definition payment_completes (env : Env) (value : N) (m : Mortgage) : bool :=
  let paid' := totalPaid m + value in
  let count' := paymentsCount m + 1 in
  let bps := N.min BASIS_POINTS (paid' * BASIS_POINTS / propertyValue m) in
  (BASIS_POINTS <=? bps) || (durationMonths m <=? count').

(** The terms of a loan record are those of its origination, and its
    payments are accounted for. *)
Record loan_terms (m : Mortgage) : Prop := {
  terms_rate : interestRateBPS m <= 2000;
  terms_monthly :
    calculateMonthlyPayment (loanAmount m) (interestRateBPS m) (durationMonths m)
      = Ok (monthlyPayment m);
  terms_principal : loanAmount m + downPayment m = propertyValue m;
  terms_value : propertyValue m <> 0;
  terms_fits : propertyValue m * 1000 < UINT256_LIMIT;
  terms_paid : downPayment m <= totalPaid m;
  terms_share : ownership_sound m;
  terms_active : status m = Active -> totalPaid m <= propertyValue m
}.

(** A loan record is empty, or it is active, paid off or foreclosed with
    sound terms. *)
Definition loan_invariant (m : Mortgage) : Prop :=
  (status m = None_ /\ m = zero_mortgage) \/
  ((status m = Active \/ status m = PaidOff \/ status m = Foreclosed) /\ loan_terms m).

(** The number of loan records that are active. *)
Definition active_loans (records : gmap N Mortgage) : nat :=
  size (filter (fun entry => status entry.2 = Active) records).

(** What every reachable world satisfies. *)
Record manager_invariant (w : World) : Prop := {
  minv_guard : mgr_entered (manager w) = false;
  minv_rate : defaultInterestRateBPS (manager w) <= 2000;
  minv_loans : forall propertyId, loan_invariant (getMortgage propertyId w);
  minv_count : totalActiveMortgages (manager w) = N.of_nat (active_loans (mortgages (manager w)))
}.

(** ** Records of the registry *)

(** [properties[tokenId].isListed = true;
     properties[tokenId].listedTimestamp = time] *)
Definition listed_at (time : N) (pr : Property) : Property :=
  {| propertyAddress := propertyAddress pr; valueUSD := valueUSD pr;
     property_totalShares := property_totalShares pr;
     imageURI := imageURI pr; description := description pr;
     isListed := true; listedTimestamp := time |}.

(** [properties[tokenId].isListed = false] *)
Definition unlisted (pr : Property) : Property :=
  {| propertyAddress := propertyAddress pr; valueUSD := valueUSD pr;
     property_totalShares := property_totalShares pr;
     imageURI := imageURI pr; description := description pr;
     isListed := false; listedTimestamp := listedTimestamp pr |}.

(** ** Records of the manager *)

(** The loan record that [applyForMortgage] writes, once activated. *)
Definition originated (env : Env) (value propertyId months rate valueUSD monthly : N)
  : Mortgage :=
  {| propertyId := propertyId; borrower := msg_sender env;
     propertyValue := valueUSD; downPayment := value;
     loanAmount := valueUSD - value;
     interestRateBPS := rate;
     durationMonths := months; monthlyPayment := monthly;
     startTimestamp := block_timestamp env;
     lastPaymentTimestamp := block_timestamp env;
     totalPaid := value;
     ownershipSharesBPS := value * BASIS_POINTS / valueUSD;
     paymentsCount := 0; status := Active |}.

(** [getBorrowerMortgages(address borrower) external view] *)
Definition getBorrowerMortgages (who : address) (w : World) : list N :=
  mapping_get [] (borrowerMortgages (manager w)) who.

(** ** The pages of the application *)

(** The Properties page, [handleApply], once the down payment field is
    filled in (with the field empty the page sends nothing): with the down
    payment and the value of the property in wei and the term in years, the
    page sends no transaction when the down payment is below a tenth of the
    value; otherwise it calls [applyForMortgage] with the down payment as
    value and the term in months. *)
Definition handleApply (downPaymentEth propertyValueEth durationYears : N)
  : option (N * N) :=
  let minDownPayment := propertyValueEth / 10 in
  if downPaymentEth <? minDownPayment then None
  else Some (downPaymentEth, durationYears * 12).

(** ** Further cases of the scenario *)
Module Cases.

(** The borrower of the scenario deposits 10 units in the pool that has
    lent 80, and withdraws the 10 shares at once. *)
Definition pool_redeposited : Pool := Eval vm_compute in
  Scenario.after Scenario.pool_lent
    (depositLiquidity (Scenario.call Scenario.alice 50) 10 Scenario.pool_lent).

Definition pool_rewithdrawn : Pool := Eval vm_compute in
  Scenario.after pool_redeposited
    (withdrawLiquidity (Scenario.call Scenario.alice 51) 10 pool_redeposited).

(** A pool with 1000000 units, and a property of value 1000000 financed
    from it with a down payment of 100000 and a term of 0 months. *)
Definition pool_large : Pool := Eval vm_compute in
  Scenario.after Scenario.pool_seeded
    (depositLiquidity (Scenario.call Scenario.lender 11) 1000000 Scenario.pool_seeded).

Definition listed_large : World :=
  {| manager := manager_constructor Scenario.deployer Scenario.managerAddr;
     mortgagePool := pool_large;
     propertyNFT := Scenario.registry 1000000 |}.

Definition zero_term : World := Eval vm_compute in
  Scenario.after listed_large
    (applyForMortgage (Scenario.call Scenario.alice 20) 100000 0 0 listed_large).

(** The property of the scenario financed with a down payment of 97 over
    2 months: the loan is 3 and the monthly payment 1. The borrower pays 1
    twice. *)
Definition short_term : World := Eval vm_compute in
  Scenario.after (Scenario.listed 100)
    (applyForMortgage (Scenario.call Scenario.alice 20) 97 0 2 (Scenario.listed 100)).

Definition short_term_paid : World := Eval vm_compute in
  Scenario.after short_term
    (makePayment (Scenario.call Scenario.alice 30) 1 0 short_term).

Definition short_term_completed : World := Eval vm_compute in
  Scenario.after short_term_paid
    (makePayment (Scenario.call Scenario.alice 40) 1 0 short_term_paid).

End Cases.

(** * Properties *)

(** ** Reasoning about the revert monad *)

Lemma bind_Ok {A B : Type} (r : result A) (k : A -> result B) (b : B) :
  bind r k = Ok b <-> exists a, r = Ok a /\ k a = Ok b.
Proof.
  destruct r as [a|e]; cbn; split.
  - eauto.
  - intros (? & [= ->] & ?). assumption.
  - discriminate.
  - intros (? & [=] & _).
Qed.

Lemma require_Ok (c : bool) (e : Error) (u : unit) : require c e = Ok u <-> c = true.
Proof. destruct c, u; cbn; split; congruence. Qed.

Lemma add_Ok (a b c : N) : add a b = Ok c <-> a + b < UINT256_LIMIT /\ c = a + b.
Proof.
  unfold add. destruct (N.ltb_spec (a + b) UINT256_LIMIT); split.
  - intros [= <-]. auto.
  - intros [_ ->]. reflexivity.
  - discriminate.
  - intros [? _]. lia.
Qed.

Lemma sub_Ok (a b c : N) : sub a b = Ok c <-> b <= a /\ c = a - b.
Proof.
  unfold sub. destruct (N.leb_spec b a); split.
  - intros [= <-]. auto.
  - intros [_ ->]. reflexivity.
  - discriminate.
  - intros [? _]. lia.
Qed.

Lemma mul_Ok (a b c : N) : mul a b = Ok c <-> a * b < UINT256_LIMIT /\ c = a * b.
Proof.
  unfold mul. destruct (N.ltb_spec (a * b) UINT256_LIMIT); split.
  - intros [= <-]. auto.
  - intros [_ ->]. reflexivity.
  - discriminate.
  - intros [? _]. lia.
Qed.

Lemma div_Ok (a b c : N) : div a b = Ok c <-> b <> 0 /\ c = a / b.
Proof.
  unfold div. destruct (N.eqb_spec b 0); split.
  - discriminate.
  - intros [? _]. contradiction.
  - intros [= <-]. auto.
  - intros [_ ->]. reflexivity.
Qed.

(** Decompose a successful run, one monadic step at a time. *)
Ltac invert_ok :=
  repeat match goal with
  | H : Ok _ = Ok _ |- _ => injection H as H; try subst
  | H : Revert _ = Ok _ |- _ => discriminate H
  | H : bind _ _ = Ok _ |- _ =>
      let a := fresh "v" in
      apply bind_Ok in H; destruct H as (a & ? & H)
  | H : require _ _ = Ok _ |- _ => apply require_Ok in H
  | H : (_ && _) = true |- _ => apply andb_true_iff in H; destruct H as [? H]
  | H : negb _ = true |- _ => apply negb_true_iff in H
  | H : (_ <=? _) = true |- _ => apply N.leb_le in H
  | H : (_ <? _) = true |- _ => apply N.ltb_lt in H
  | H : (_ =? _) = true |- _ => apply N.eqb_eq in H
  | H : (_ <=? _) = false |- _ => apply N.leb_gt in H
  | H : (_ <? _) = false |- _ => apply N.ltb_ge in H
  | H : (_ =? _) = false |- _ => apply N.eqb_neq in H
  | H : bool_decide _ = true |- _ => apply bool_decide_eq_true in H
  | H : bool_decide _ = false |- _ => apply bool_decide_eq_false in H
  | H : add _ _ = Ok _ |- _ => apply add_Ok in H; destruct H as [? ->]
  | H : sub _ _ = Ok _ |- _ => apply sub_Ok in H; destruct H as [? ->]
  | H : mul _ _ = Ok _ |- _ => apply mul_Ok in H; destruct H as [? ->]
  | H : div _ _ = Ok _ |- _ => apply div_Ok in H; destruct H as [? ->]
  end.

Lemma add_fits (a b : N) : a + b < UINT256_LIMIT -> add a b = Ok (a + b).
Proof. intros. apply add_Ok. auto. Qed.

Lemma sub_fits (a b : N) : b <= a -> sub a b = Ok (a - b).
Proof. intros. apply sub_Ok. auto. Qed.

Lemma mul_fits (a b : N) : a * b < UINT256_LIMIT -> mul a b = Ok (a * b).
Proof. intros. apply mul_Ok. auto. Qed.

Lemma div_fits (a b : N) : b <> 0 -> div a b = Ok (a / b).
Proof. intros. apply div_Ok. auto. Qed.

Lemma limit_large : 1000000 < UINT256_LIMIT.
Proof. reflexivity. Qed.

(** ** The amortization rule *)

(** C8: for [months > 0] the monthly payment computed at origination is
    [(principal + principal * annualRateBPS * months / (10000 * 12)) / months]
    with floor divisions; the function returns exactly when the product and
    the sum fit in 256 bits. For principal 80 at 500 bps over 12 months the
    total interest is 4 and the monthly payment is 7. *)
Theorem calculateMonthlyPayment_flat_rate :
  (forall principal annualRateBPS months payment : N,
     0 < months ->
     let totalInterest := principal * annualRateBPS * months / (10000 * 12) in
     calculateMonthlyPayment principal annualRateBPS months = Ok payment <->
     principal * annualRateBPS * months < UINT256_LIMIT /\
     principal + totalInterest < UINT256_LIMIT /\
     payment = (principal + totalInterest) / months) /\
  80 * 500 * 12 / (10000 * 12) = 4 /\
  calculateMonthlyPayment 80 500 12 = Ok 7.
Proof.
  split; [|split; reflexivity].
  intros principal rate months payment Hm totalInterest. subst totalInterest.
  unfold calculateMonthlyPayment.
  destruct (N.eqb_spec months 0) as [->|Hne]; [lia|].
  change (10000 * 12) with 120000.
  split.
  - intros H. invert_ok.
    change (BASIS_POINTS * 12) with 120000 in *. auto.
  - intros (Hmul & Hadd & ->).
    assert (principal * rate < UINT256_LIMIT) by nia.
    rewrite div_fits by discriminate. cbn [bind].
    rewrite mul_fits by assumption. cbn [bind].
    rewrite mul_fits by assumption. cbn [bind].
    rewrite mul_fits by reflexivity. cbn [bind].
    rewrite div_fits by discriminate. cbn [bind].
    change (BASIS_POINTS * 12) with 120000.
    rewrite add_fits by assumption. cbn [bind].
    apply div_fits. assumption.
Qed.

Lemma calculateMonthlyPayment_flat_rate_witness :
  calculateMonthlyPayment 80 500 12 = Ok 7 <->
  80 * 500 * 12 < UINT256_LIMIT /\
  80 + 80 * 500 * 12 / (10000 * 12) < UINT256_LIMIT /\
  7 = (80 + 80 * 500 * 12 / (10000 * 12)) / 12.
Proof.
  apply (proj1 calculateMonthlyPayment_flat_rate 80 500 12 7). reflexivity.
Defined.

(** ** The pool ledger *)

Lemma pool_nonReentrant_Ok (body : Pool -> result Pool) (p p' : Pool) :
  pool_nonReentrant body p = Ok p' <->
  pool_entered p = false /\
  exists q, body (pool_set_entered true p) = Ok q /\ p' = pool_set_entered false q.
Proof.
  unfold pool_nonReentrant. destruct (pool_entered p); split.
  - discriminate.
  - intros [[=] _].
  - intros H. invert_ok. eauto.
  - intros (_ & q & -> & ->). reflexivity.
Qed.

Lemma pool_nonReentrant_Revert (body : Pool -> result Pool) (p : Pool) (e : Error) :
  pool_entered p = false ->
  body (pool_set_entered true p) = Revert e ->
  pool_nonReentrant body p = Revert e.
Proof. unfold pool_nonReentrant. intros -> ->. reflexivity. Qed.

(** Reduce the projections of pool records, and nothing else. *)
Tactic Notation "pool_fields" :=
  cbn [pool_set_entered totalLiquidity totalShares insuranceReserve activeMortgages
       totalInterestEarned lpShares lpDepositTimestamp authorizedBorrowers pool_owner
       pool_entered pool_balance pool_events].
Tactic Notation "pool_fields" "in" hyp(H) :=
  cbn [pool_set_entered totalLiquidity totalShares insuranceReserve activeMortgages
       totalInterestEarned lpShares lpDepositTimestamp authorizedBorrowers pool_owner
       pool_entered pool_balance pool_events] in H.

Ltac invert_pool_call H :=
  apply pool_nonReentrant_Ok in H; destruct H as (? & ? & H & ->);
  pool_fields in H; invert_ok.

Lemma floor_share_lt (shares liquidity total : N) :
  shares < total -> liquidity <> 0 -> shares * liquidity / total < liquidity.
Proof.
  intros Hs Hl. apply N.Div0.div_lt_upper_bound. nia.
Qed.

Lemma pool_step_invariant (p p' : Pool) :
  pool_invariant p -> pool_step p p' -> pool_invariant p'.
Proof.
  intros [Hg Hc Hp] Hstep.
  destruct Hstep as
    [env value p p' H | env shares p p' H | env b amount p p' H
    | env value pr i p p' H | env amount p p' H
    | env b p p' H | env b p p' H | value p p' H].
  - invert_pool_call H.
    destruct (totalShares p =? 0) eqn:Hts; invert_ok;
      split; cbn; try reflexivity; lia.
  - invert_pool_call H.
    split; cbn; [reflexivity | lia |].
    intros Hne.
    assert (totalLiquidity p <> 0) by (apply Hp; lia).
    assert (shares * totalLiquidity p / totalShares p < totalLiquidity p)
      by (apply floor_share_lt; [lia | assumption]).
    lia.
  - invert_pool_call H. split; cbn; [reflexivity | lia | assumption].
  - invert_pool_call H. split; cbn; [reflexivity | lia | lia].
  - invert_pool_call H. split; cbn; [reflexivity | lia | assumption].
  - unfold authorizeBorrower in H. invert_ok. split; cbn; assumption.
  - unfold revokeBorrower in H. invert_ok. split; cbn; assumption.
  - unfold pool_receive in H. invert_ok. split; cbn; assumption.
Qed.

Lemma pool_reachable_invariant (p : Pool) : pool_reachable p -> pool_invariant p.
Proof.
  induction 1 as [deployer | p p' _ IH Hstep].
  - split; cbn; [reflexivity | lia | congruence].
  - eapply pool_step_invariant; eassumption.
Qed.

(** C3: in every reachable pool state the capital lent out does not exceed
    the total liquidity, so [availableLiquidity] returns their difference
    and never underflows; every successful pool call leads to such a state
    again, and a withdrawal or a loan funding whose amount exceeds the
    available liquidity reverts. *)
Theorem pool_capital_invariant (p : Pool) :
  pool_reachable p ->
  activeMortgages p <= totalLiquidity p /\
  availableLiquidity p = Ok (totalLiquidity p - activeMortgages p) /\
  (forall p', pool_step p p' -> activeMortgages p' <= totalLiquidity p') /\
  (forall env shares,
     totalLiquidity p - activeMortgages p < shares * totalLiquidity p / totalShares p ->
     exists e, transact (withdrawLiquidity env shares) p = (p, Some e)) /\
  (forall env borrower amount,
     totalLiquidity p - activeMortgages p < amount ->
     exists e, transact (fundMortgage env borrower amount) p = (p, Some e)).
Proof.
  intros Hreach.
  pose proof (pool_reachable_invariant p Hreach) as [Hg Hc Hp].
  split; [assumption|].
  split; [apply sub_fits; assumption|].
  split; [|split].
  - intros p' Hstep.
    apply (pool_reachable_invariant p'). eapply reachable_step; eassumption.
  - intros env shares Hlocked. unfold transact.
    destruct (withdrawLiquidity env shares p) as [p'|e] eqn:H; [|eauto].
    invert_pool_call H. lia.
  - intros env b amount Hlocked. unfold transact.
    destruct (fundMortgage env b amount p) as [p'|e] eqn:H; [|eauto].
    invert_pool_call H. lia.
Qed.

Lemma pool_lent_reachable : pool_reachable Scenario.pool_lent.
Proof.
  eapply reachable_step;
    [eapply reachable_step;
       [eapply reachable_step; [apply (reachable_deployed Scenario.deployer)|] |] |].
  - eapply (step_authorize (Scenario.call Scenario.deployer 0) Scenario.managerAddr).
    reflexivity.
  - eapply (step_deposit (Scenario.call Scenario.lender 10) 100). reflexivity.
  - eapply (step_fund (Scenario.call Scenario.managerAddr 20) Scenario.alice 80).
    reflexivity.
Qed.

Lemma pool_capital_invariant_witness :
  activeMortgages Scenario.pool_lent <= totalLiquidity Scenario.pool_lent /\
  availableLiquidity Scenario.pool_lent = Ok 20.
Proof.
  destruct (pool_capital_invariant Scenario.pool_lent pool_lent_reachable)
    as (H1 & H2 & _).
  split; [exact H1 | exact H2].
Defined.

(** C6: a withdrawal whose payout
    [ethOut = shares * totalLiquidity / totalShares] exceeds the available
    liquidity reverts and leaves the pool as it was (the caller's shares,
    [totalShares] and [totalLiquidity] included); when the caller holds the
    shares and the payout has been computed, the error is the one of locked
    liquidity. *)
Theorem withdrawLiquidity_locked (env : Env) (shares : N) (p : Pool) :
  let ethOut := shares * totalLiquidity p / totalShares p in
  let available := totalLiquidity p - activeMortgages p in
  available < ethOut ->
  (exists e, transact (withdrawLiquidity env shares) p = (p, Some e)) /\
  (pool_entered p = false ->
   shares <= mapping_get 0 (lpShares p) (msg_sender env) ->
   0 < shares ->
   totalShares p <> 0 ->
   shares * totalLiquidity p < UINT256_LIMIT ->
   activeMortgages p <= totalLiquidity p ->
   transact (withdrawLiquidity env shares) p = (p, Some LiquidityLocked)).
Proof.
  intros ethOut available Hlocked. subst ethOut available. split.
  - unfold transact.
    destruct (withdrawLiquidity env shares p) as [p'|e] eqn:H; [|eauto].
    invert_pool_call H. lia.
  - intros Hguard Hheld Hpos Hts Hfits Hcap.
    unfold transact, withdrawLiquidity.
    rewrite (pool_nonReentrant_Revert _ p LiquidityLocked Hguard); [reflexivity|].
    pool_fields.
    apply N.leb_le in Hheld. rewrite Hheld. cbn [require bind].
    apply N.ltb_lt in Hpos. rewrite Hpos. cbn [require bind].
    rewrite mul_fits by assumption. cbn [bind].
    rewrite div_fits by assumption. cbn [bind].
    rewrite sub_fits by assumption. cbn [bind].
    apply N.leb_gt in Hlocked. rewrite Hlocked. reflexivity.
Qed.

Lemma withdrawLiquidity_locked_witness :
  transact (withdrawLiquidity (Scenario.call Scenario.lender 40) 100) Scenario.pool_lent
    = (Scenario.pool_lent, Some LiquidityLocked).
Proof.
  refine (proj2 (withdrawLiquidity_locked (Scenario.call Scenario.lender 40) 100
                   Scenario.pool_lent _) _ _ _ _ _ _);
    vm_compute; congruence.
Defined.

(** C7: a deposit of [value > 0] mints [value] shares when there are no
    shares, and [value * totalShares / totalLiquidity] (floor) otherwise;
    the insurance cut [value * 200 / 10000] goes to the reserve while the
    whole of [value] is added to [totalLiquidity]; a deposit of zero fails
    with the invalid-amount error. From a reachable pool the deposit
    succeeds whenever the new balances fit in 256 bits. *)
Theorem depositLiquidity_shares (env : Env) (value : N) (p : Pool) :
  let shares :=
    if totalShares p =? 0 then value
    else value * totalShares p / totalLiquidity p in
  let insuranceCut := value * 200 / 10000 in
  let held := mapping_get 0 (lpShares p) (msg_sender env) in
  let minted p' :=
    mapping_get 0 (lpShares p') (msg_sender env) = held + shares /\
    totalShares p' = totalShares p + shares /\
    totalLiquidity p' = totalLiquidity p + value /\
    insuranceReserve p' = insuranceReserve p + insuranceCut /\
    activeMortgages p' = activeMortgages p /\
    pool_balance p' = pool_balance p + value /\
    pool_events p' = LiquidityDeposited (msg_sender env) value shares :: pool_events p in
  pool_reachable p ->
  (forall p', depositLiquidity env value p = Ok p' -> 0 < value /\ minted p') /\
  (0 < value ->
   value * totalShares p < UINT256_LIMIT ->
   value * 200 < UINT256_LIMIT ->
   insuranceReserve p + insuranceCut < UINT256_LIMIT ->
   held + shares < UINT256_LIMIT ->
   totalShares p + shares < UINT256_LIMIT ->
   totalLiquidity p + value < UINT256_LIMIT ->
   exists p', depositLiquidity env value p = Ok p' /\ minted p') /\
  (value = 0 -> transact (depositLiquidity env value) p = (p, Some MustDepositETH)).
Proof.
  intros shares insuranceCut held minted Hreach.
  pose proof (pool_reachable_invariant p Hreach) as [Hg Hc Hp].
  assert (Hminted : forall p', depositLiquidity env value p = Ok p' ->
                               0 < value /\ minted p').
  { intros p' H. invert_pool_call H.
    subst minted shares insuranceCut held.
    change INSURANCE_RATE with 200. change BASIS_POINTS with 10000.
    destruct (totalShares p =? 0) eqn:Hts; invert_ok; pool_fields;
      unfold mapping_get; rewrite lookup_insert_eq; cbn [default];
      repeat split; assumption || reflexivity. }
  split; [exact Hminted|]. split.
  - intros Hpos Hmul Hcut Hres Hheld Hts Htl.
    assert (exists p', depositLiquidity env value p = Ok p') as [p' Hp'].
    { unfold depositLiquidity, pool_nonReentrant. rewrite Hg.
      pool_fields.
      apply N.ltb_lt in Hpos. rewrite Hpos. cbn [require bind].
      assert (Hshares :
        (if totalShares p =? 0 then Ok value
         else let! n := mul value (totalShares p) in div n (totalLiquidity p))
        = Ok shares).
      { subst shares. destruct (N.eqb_spec (totalShares p) 0) as [Hz|Hnz];
          [reflexivity|].
        rewrite mul_fits by assumption. cbn [bind].
        apply div_fits. auto. }
      rewrite Hshares. cbn [bind].
      change INSURANCE_RATE with 200. change BASIS_POINTS with 10000.
      rewrite mul_fits by assumption. cbn [bind].
      rewrite div_fits by discriminate. cbn [bind].
      fold insuranceCut. fold held.
      rewrite (add_fits _ _ Hres). cbn [bind].
      rewrite (add_fits _ _ Hheld). cbn [bind].
      rewrite (add_fits _ _ Hts). cbn [bind].
      rewrite (add_fits _ _ Htl). cbn [bind].
      eauto. }
    exists p'. split; [assumption|]. apply Hminted. assumption.
  - intros ->. unfold transact, depositLiquidity.
    rewrite (pool_nonReentrant_Revert _ p MustDepositETH Hg); reflexivity.
Qed.

Lemma depositLiquidity_shares_witness :
  exists p',
    depositLiquidity (Scenario.call Scenario.alice 50) 10 Scenario.pool_lent = Ok p' /\
    mapping_get 0 (lpShares p') Scenario.alice = 10 /\
    totalShares p' = 110 /\ totalLiquidity p' = 110 /\ insuranceReserve p' = 2.
Proof.
  destruct (proj1 (proj2 (depositLiquidity_shares (Scenario.call Scenario.alice 50) 10
                            Scenario.pool_lent pool_lent_reachable)))
    as (p' & Hp' & H1 & H2 & H3 & H4 & _); try (vm_compute; reflexivity).
  exists p'. repeat split; assumption.
Defined.

(** ** The loan ledger *)

(** Reduce the projections of the manager and of the world, and nothing
    else. *)
Tactic Notation "world_fields" :=
  cbn [set_manager set_pool set_nft set_mortgage push_borrowerMortgage
       set_totalActiveMortgages set_defaultInterestRateBPS set_mgr_entered
       set_mgr_balance emit as_manager
       manager mortgagePool propertyNFT
       mortgages borrowerMortgages totalActiveMortgages defaultInterestRateBPS
       mgr_owner mgr_entered mgr_self mgr_balance mgr_events
       msg_sender block_timestamp recipient_accepts].
Tactic Notation "world_fields" "in" hyp(H) :=
  cbn [set_manager set_pool set_nft set_mortgage push_borrowerMortgage
       set_totalActiveMortgages set_defaultInterestRateBPS set_mgr_entered
       set_mgr_balance emit as_manager
       manager mortgagePool propertyNFT
       mortgages borrowerMortgages totalActiveMortgages defaultInterestRateBPS
       mgr_owner mgr_entered mgr_self mgr_balance mgr_events
       msg_sender block_timestamp recipient_accepts] in H.
Tactic Notation "mortgage_fields" :=
  cbn [with_status with_ownership with_payment
       propertyId borrower propertyValue downPayment loanAmount interestRateBPS
       durationMonths monthlyPayment startTimestamp lastPaymentTimestamp totalPaid
       ownershipSharesBPS paymentsCount status].
Tactic Notation "mortgage_fields" "in" hyp(H) :=
  cbn [with_status with_ownership with_payment
       propertyId borrower propertyValue downPayment loanAmount interestRateBPS
       durationMonths monthlyPayment startTimestamp lastPaymentTimestamp totalPaid
       ownershipSharesBPS paymentsCount status] in H.

Lemma mgr_nonReentrant_Ok (body : World -> result World) (w w' : World) :
  mgr_nonReentrant body w = Ok w' <->
  mgr_entered (manager w) = false /\
  exists u, body (set_mgr_entered true w) = Ok u /\ w' = set_mgr_entered false u.
Proof.
  unfold mgr_nonReentrant. destruct (mgr_entered (manager w)); split.
  - discriminate.
  - intros [[=] _].
  - intros H. invert_ok. eauto.
  - intros (_ & u & -> & ->). reflexivity.
Qed.

Lemma getMortgage_set_mortgage (propertyId : N) (m : Mortgage) (w : World) :
  getMortgage propertyId (set_mortgage propertyId m w) = m.
Proof.
  unfold getMortgage, mapping_get. world_fields.
  rewrite lookup_insert_eq. reflexivity.
Qed.

Lemma getMortgage_set_mortgage_ne (propertyId other : N) (m : Mortgage) (w : World) :
  propertyId <> other ->
  getMortgage other (set_mortgage propertyId m w) = getMortgage other w.
Proof.
  intros Hne. unfold getMortgage, mapping_get. world_fields.
  rewrite lookup_insert_ne by assumption. reflexivity.
Qed.

Lemma getMortgage_set_mgr_entered (b : bool) (propertyId : N) (w : World) :
  getMortgage propertyId (set_mgr_entered b w) = getMortgage propertyId w.
Proof. reflexivity. Qed.

Lemma completeMortgage_Ok (propertyId : N) (w w' : World) :
  _completeMortgage propertyId w = Ok w' ->
  mortgagePool w' = mortgagePool w /\
  propertyNFT w' = propertyNFT w /\
  getMortgage propertyId w'
    = with_ownership BASIS_POINTS (with_status PaidOff (getMortgage propertyId w)) /\
  (forall other, propertyId <> other -> getMortgage other w' = getMortgage other w).
Proof.
  unfold _completeMortgage. intros H. invert_ok.
  repeat split.
  - apply getMortgage_set_mortgage.
  - intros other Hne. apply getMortgage_set_mortgage_ne. assumption.
Qed.

(** What a successful payment has checked and done. *)
Lemma makePayment_Ok (env : Env) (value propertyId : N) (w w' : World) :
  makePayment env value propertyId w = Ok w' ->
  let m := getMortgage propertyId w in
  exists interest p',
    status m = Active /\
    msg_sender env = borrower m /\
    expectedPayment env m = Ok value /\
    interestPayment m = Ok interest /\
    interest <= value /\
    propertyValue m <> 0 /\
    receiveMortgagePayment (as_manager env w) value (value - interest) interest
      (mortgagePool w) = Ok p' /\
    mortgagePool w' = p' /\
    propertyNFT w' = propertyNFT w /\
    getMortgage propertyId w' = after_payment env value m /\
    (forall other, propertyId <> other -> getMortgage other w' = getMortgage other w) /\
    mgr_entered (manager w') = false.
Proof.
  intros H m. unfold makePayment in H.
  apply mgr_nonReentrant_Ok in H. destruct H as (Hguard & u & H & ->).
  change (getMortgage propertyId (set_mgr_balance _ (set_mgr_entered true w)))
    with m in H.
  cbv zeta in H.
  apply bind_Ok in H as ([] & Hactive & H). apply require_Ok in Hactive.
  apply bool_decide_eq_true in Hactive.
  apply bind_Ok in H as ([] & Hborrower & H). apply require_Ok in Hborrower.
  apply N.eqb_eq in Hborrower.
  apply bind_Ok in H as (expected & Hexpected & H).
  apply bind_Ok in H as ([] & Henough & H). apply require_Ok in Henough.
  apply N.leb_le in Henough.
  apply bind_Ok in H as (interest & Hinterest & H).
  apply bind_Ok in H as (principal & Hprincipal & H).
  apply sub_Ok in Hprincipal as [Hle ->].
  apply bind_Ok in H as (paid' & Hpaid & H). apply add_Ok in Hpaid as [_ ->].
  apply bind_Ok in H as (count' & Hcount & H). apply add_Ok in Hcount as [_ ->].
  apply bind_Ok in H as (n & Hn & H). apply mul_Ok in Hn as [_ ->].
  apply bind_Ok in H as (bps0 & Hbps0 & H). apply div_Ok in Hbps0 as [Hvalue ->].
  apply bind_Ok in H as (p' & Hpool & H).
  world_fields in Hpool.
  assert (Hbps : (if BASIS_POINTS <? (totalPaid m + value) * BASIS_POINTS / propertyValue m
                  then BASIS_POINTS
                  else (totalPaid m + value) * BASIS_POINTS / propertyValue m)
                 = N.min BASIS_POINTS
                     ((totalPaid m + value) * BASIS_POINTS / propertyValue m)).
  { destruct (N.ltb_spec BASIS_POINTS
                ((totalPaid m + value) * BASIS_POINTS / propertyValue m)); lia. }
  rewrite Hbps in H.
  assert (value = expected) as <-.
  { pose proof Hpool as Hcall. invert_pool_call Hcall. lia. }
  exists interest, p'.
  do 6 (split; [assumption|]).
  split; [exact Hpool|].
  unfold after_payment. cbv zeta.
  destruct ((BASIS_POINTS <=? _) || (durationMonths m <=? _)).
  - apply completeMortgage_Ok in H as (Hp & Hn & Hm & Hother).
    split; [exact Hp|]. split; [exact Hn|]. split; [|split; [|reflexivity]].
    + rewrite getMortgage_set_mgr_entered, Hm.
      unfold getMortgage at 1, mapping_get. world_fields.
      rewrite lookup_insert_eq. reflexivity.
    + intros other Hne. rewrite getMortgage_set_mgr_entered, (Hother other Hne).
      unfold getMortgage at 1, mapping_get. world_fields.
      rewrite lookup_insert_ne by assumption. reflexivity.
  - injection H as <-.
    split; [reflexivity|]. split; [reflexivity|]. split; [|split; [|reflexivity]].
    + unfold getMortgage at 1, mapping_get. world_fields.
      rewrite lookup_insert_eq. reflexivity.
    + intros other Hne.
      unfold getMortgage at 1, mapping_get. world_fields.
      rewrite lookup_insert_ne by assumption. reflexivity.
Qed.

(** Payments leave the registry alone, and the guard of the manager clear. *)
Lemma payments_registry (w w' : World) :
  payments w w' ->
  propertyNFT w' = propertyNFT w /\
  (mgr_entered (manager w) = false -> mgr_entered (manager w') = false).
Proof.
  induction 1 as [w | env value paid w w1 w2 _ [IHnft IHguard] Hpay].
  - auto.
  - apply makePayment_Ok in Hpay.
    destruct Hpay as (i & p' & _ & _ & _ & _ & _ & _ & _ & _ & Hnft & _ & _ & Hguard).
    split; [congruence | auto].
Qed.

(** C2: a successful payment of [value], which is at least the amount due,
    by the borrower of an active loan, is forwarded whole to the pool,
    split into the interest on the outstanding balance
    [loanAmount - (totalPaid - downPayment)] at the monthly rate
    [interestRateBPS / 12], and the principal [value - interest]; the pool
    receives exactly this split. *)
Theorem makePayment_split (env : Env) (value propertyId : N) (w w' : World) :
  makePayment env value propertyId w = Ok w' ->
  let m := getMortgage propertyId w in
  let outstanding := loanAmount m - (totalPaid m - downPayment m) in
  let interest := outstanding * (interestRateBPS m / 12) / 10000 in
  let principal := value - interest in
  let pool := mortgagePool w in
  let pool' := mortgagePool w' in
  status m = Active /\
  msg_sender env = borrower m /\
  (exists expected, expectedPayment env m = Ok expected /\ expected <= value) /\
  downPayment m <= totalPaid m /\
  totalPaid m - downPayment m <= loanAmount m /\
  interest <= value /\
  receiveMortgagePayment (as_manager env w) value principal interest pool = Ok pool' /\
  pool_events pool' = MortgageRepayment principal interest :: pool_events pool /\
  pool_balance pool' = pool_balance pool + value /\
  totalLiquidity pool' = totalLiquidity pool + value /\
  activeMortgages pool' = activeMortgages pool - principal /\
  totalInterestEarned pool' = totalInterestEarned pool + interest.
Proof.
  intros H m outstanding interest principal pool pool'.
  apply makePayment_Ok in H.
  destruct H as (i & p' & Hactive & Hborrower & Hexpected & Hinterest & Hle & _
                 & Hcall & Hpool & _).
  fold m in Hactive, Hborrower, Hexpected, Hinterest.
  assert (Hi : downPayment m <= totalPaid m /\
               totalPaid m - downPayment m <= loanAmount m /\ i = interest).
  { unfold interestPayment in Hinterest. invert_ok. auto. }
  destruct Hi as (Hdown & Hpaid & ->).
  subst pool' p'. fold principal pool in Hcall.
  split; [assumption|]. split; [assumption|].
  split; [exists value; split; [assumption | lia]|].
  do 3 (split; [assumption|]).
  split; [assumption|].
  pose proof Hcall as Hfields. invert_pool_call Hfields.
  pool_fields. repeat split.
Qed.

Lemma makePayment_split_witness :
  pool_events (mortgagePool Scenario.paid_once)
    = MortgageRepayment 7 0 :: pool_events (mortgagePool Scenario.financed).
Proof.
  refine (proj1 (proj2 (proj2 (proj2 (proj2 (proj2 (proj2 (proj2
            (makePayment_split (Scenario.call Scenario.alice 30) 7 0
               Scenario.financed Scenario.paid_once _))))))))).
  vm_compute. reflexivity.
Defined.

(** C10: no payment above the amount due goes through: the call to
    [makePayment] with a [value] above the expected payment of an active
    loan reverts and changes nothing, and a payment that succeeds has paid the
    expected amount exactly. When nothing else stops the call, the revert is
    the payment-mismatch check of the pool, which receives the whole of
    [value] with a split that sums to the amount due. *)
Theorem makePayment_exact_amount (env : Env) (value propertyId : N) (w : World) (expected : N) :
  let m := getMortgage propertyId w in
  status m = Active ->
  expectedPayment env m = Ok expected ->
  expected < value ->
  (exists e, transact (makePayment env value propertyId) w = (w, Some e)) /\
  (forall paid w', makePayment env paid propertyId w = Ok w' -> paid = expected) /\
  (forall interest,
     mgr_entered (manager w) = false ->
     msg_sender env = borrower m ->
     interestPayment m = Ok interest ->
     interest <= expected ->
     (totalPaid m + value) * BASIS_POINTS < UINT256_LIMIT ->
     paymentsCount m + 1 < UINT256_LIMIT ->
     propertyValue m <> 0 ->
     pool_entered (mortgagePool w) = false ->
     mapping_get false (authorizedBorrowers (mortgagePool w)) (mgr_self (manager w)) = true ->
     transact (makePayment env value propertyId) w = (w, Some PaymentAmountMismatch)).
Proof.
  intros m Hactive Hexpected Hover.
  assert (Hexact : forall paid w', makePayment env paid propertyId w = Ok w' ->
                                   paid = expected).
  { intros paid w' H. apply makePayment_Ok in H.
    destruct H as (_ & _ & _ & _ & Hpaid & _). fold m in Hpaid. congruence. }
  split; [|split; [exact Hexact|]].
  - unfold transact.
    destruct (makePayment env value propertyId w) as [w'|e] eqn:H; [|eauto].
    apply Hexact in H. lia.
  - intros interest Hguard Hborrower Hinterest Hle Hmul Hcount Hvalue Hpguard Hauth.
    unfold transact, makePayment, mgr_nonReentrant. rewrite Hguard.
    change (getMortgage propertyId (set_mgr_balance _ (set_mgr_entered true w)))
      with m.
    cbv zeta.
    rewrite Hactive. cbn [bool_decide decide_rel require bind].
    rewrite (bool_decide_eq_true_2 _ eq_refl). cbn [require bind].
    apply N.eqb_eq in Hborrower. rewrite Hborrower. cbn [require bind].
    rewrite Hexpected. cbn [bind].
    assert (Hge : (expected <=? value) = true) by (apply N.leb_le; lia).
    rewrite Hge. cbn [require bind].
    rewrite Hinterest. cbn [bind].
    rewrite sub_fits by assumption. cbn [bind].
    assert (Hlimit : totalPaid m + value < UINT256_LIMIT)
      by (unfold BASIS_POINTS in Hmul; lia).
    rewrite add_fits by assumption. cbn [bind].
    rewrite add_fits by assumption. cbn [bind].
    rewrite mul_fits by assumption. cbn [bind].
    rewrite div_fits by assumption. cbn [bind].
    world_fields.
    unfold receiveMortgagePayment, pool_nonReentrant. rewrite Hpguard.
    pool_fields. world_fields. rewrite Hauth. cbn [require bind].
    rewrite add_fits by lia. cbn [bind].
    replace (expected - interest + interest) with expected by lia.
    assert (Hne : (value =? expected) = false) by (apply N.eqb_neq; lia).
    rewrite Hne. reflexivity.
Qed.

Lemma makePayment_exact_amount_witness :
  transact (makePayment (Scenario.call Scenario.alice 30) 8 0) Scenario.financed
    = (Scenario.financed, Some PaymentAmountMismatch).
Proof.
  refine (proj2 (proj2 (makePayment_exact_amount (Scenario.call Scenario.alice 30) 8 0
                          Scenario.financed 7 _ _ _)) 0 _ _ _ _ _ _ _ _ _);
    vm_compute; congruence.
Defined.

(** The mortgage record that a successful application leaves. *)
Lemma applyForMortgage_Ok (env : Env) (value propertyId months : N) (w w' : World) :
  applyForMortgage env value propertyId months w = Ok w' ->
  exists property monthly p' t1 t2,
    mgr_entered (manager w) = false /\
    getProperty propertyId (propertyNFT w) = Ok property /\
    isListed property = true /\
    status (getMortgage propertyId w) = None_ /\
    valueUSD property * 1000 / BASIS_POINTS <= value /\
    value <= valueUSD property /\
    valueUSD property <> 0 /\
    calculateMonthlyPayment (valueUSD property - value)
      (defaultInterestRateBPS (manager w)) months = Ok monthly /\
    fundMortgage (as_manager env w) (msg_sender env) (valueUSD property - value)
      (mortgagePool w) = Ok p' /\
    mortgagePool w' = p' /\
    transferFrom (as_manager env w) (mgr_self (manager w)) (msg_sender env) propertyId
      (propertyNFT w) = Ok t1 /\
    unlistProperty (as_manager env w) propertyId t1 = Ok t2 /\
    propertyNFT w' = t2 /\
    mgr_entered (manager w') = false /\
    getMortgage propertyId w' =
      {| propertyId := propertyId; borrower := msg_sender env;
         propertyValue := valueUSD property; downPayment := value;
         loanAmount := valueUSD property - value;
         interestRateBPS := defaultInterestRateBPS (manager w);
         durationMonths := months; monthlyPayment := monthly;
         startTimestamp := block_timestamp env;
         lastPaymentTimestamp := block_timestamp env;
         totalPaid := value;
         ownershipSharesBPS := value * BASIS_POINTS / valueUSD property;
         paymentsCount := 0; status := Active |}.
Proof.
  intros H. unfold applyForMortgage in H.
  apply mgr_nonReentrant_Ok in H. destruct H as (Hguard & u & H & ->).
  cbv zeta in H.
  apply bind_Ok in H as (property & Hproperty & H).
  apply bind_Ok in H as ([] & Hlisted & H). apply require_Ok in Hlisted.
  apply bind_Ok in H as ([] & Hnone & H). apply require_Ok in Hnone.
  apply bool_decide_eq_true in Hnone.
  apply bind_Ok in H as (n & Hn & H). apply mul_Ok in Hn as [_ ->].
  apply bind_Ok in H as (minDown & Hmin & H). apply div_Ok in Hmin as [_ ->].
  apply bind_Ok in H as ([] & Hdown & H). apply require_Ok in Hdown.
  apply N.leb_le in Hdown.
  apply bind_Ok in H as (loan & Hloan & H). apply sub_Ok in Hloan as [Hle ->].
  apply bind_Ok in H as (monthly & Hmonthly & H).
  apply bind_Ok in H as (available & Havailable & H).
  apply bind_Ok in H as ([] & Henough & H).
  apply bind_Ok in H as (n & Hn & H). apply mul_Ok in Hn as [_ ->].
  apply bind_Ok in H as (bps & Hbps & H). apply div_Ok in Hbps as [Hvalue ->].
  unfold _activateMortgage in H. cbv zeta in H.
  apply bind_Ok in H as ([] & Happlied & H).
  apply bind_Ok in H as (count & Hcount & H).
  apply bind_Ok in H as (p' & Hfund & H).
  apply bind_Ok in H as (t1 & Htransfer & H).
  apply bind_Ok in H as (t2 & Hunlist & H).
  injection H as <-.
  unfold getMortgage, mapping_get in Hfund, Htransfer. world_fields in Hfund.
  world_fields in Htransfer.
  rewrite !lookup_insert_eq in Hfund. rewrite !lookup_insert_eq in Htransfer.
  exists property, monthly, p', t1, t2.
  split; [exact Hguard|]. split; [exact Hproperty|]. split; [exact Hlisted|].
  split; [exact Hnone|]. split; [exact Hdown|]. split; [exact Hle|].
  split; [exact Hvalue|]. split; [exact Hmonthly|]. split; [exact Hfund|].
  split; [reflexivity|]. split; [exact Htransfer|]. split; [exact Hunlist|].
  split; [reflexivity|]. split; [reflexivity|].
  unfold getMortgage, mapping_get. world_fields.
  rewrite !lookup_insert_eq. reflexivity.
Qed.

(** After [transferFrom] and [unlistProperty] the token exists and is not
    listed. *)
Lemma originated_unlisted (env : Env) (from to : address) (tokenId : N)
    (t t1 t2 : PropertyNFT) :
  transferFrom env from to tokenId t = Ok t1 ->
  unlistProperty env tokenId t1 = Ok t2 ->
  exists property, getProperty tokenId t2 = Ok property /\ isListed property = false.
Proof.
  unfold transferFrom, unlistProperty. intros H1 H2.
  apply bind_Ok in H1 as ([] & Hto & H1). apply require_Ok in Hto.
  invert_ok.
  unfold getProperty, _ownerOf, mapping_get, set_property.
  cbn [erc721_owners properties]. rewrite !lookup_insert_eq. cbn [from_option id].
  destruct (N.eqb_spec to 0) as [Hz|Hnz]; [contradiction|]. cbn [negb require bind].
  eexists. split; reflexivity.
Qed.

Lemma applyForMortgage_Revert_at_listing (env : Env) (value propertyId months : N)
    (w : World) (property : Property) :
  mgr_entered (manager w) = false ->
  getProperty propertyId (propertyNFT w) = Ok property ->
  status (getMortgage propertyId w) <> None_ \/ isListed property = false ->
  applyForMortgage env value propertyId months w
    = Revert (if isListed property then PropertyAlreadyMortgaged else PropertyNotListed).
Proof.
  intros Hguard Hproperty Hcase.
  unfold applyForMortgage, mgr_nonReentrant. rewrite Hguard. cbv zeta.
  change (propertyNFT (set_mgr_balance _ (set_mgr_entered true w)))
    with (propertyNFT w).
  rewrite Hproperty. cbn [bind].
  destruct (isListed property) eqn:Hlisted; [|reflexivity].
  cbn [require bind].
  change (getMortgage propertyId (set_mgr_balance _ (set_mgr_entered true w)))
    with (getMortgage propertyId w).
  destruct Hcase as [Hstatus|]; [|discriminate].
  rewrite (bool_decide_eq_false_2 _ Hstatus). reflexivity.
Qed.

(** C9 (amended): an application for an asset whose loan record has a
    status other than [None] always reverts and changes nothing. The
    revert is the status conflict when the registry lists the asset; when
    the asset is not listed, as after every origination and the payments
    that follow it, the earlier listing check reverts first. *)
Theorem applyForMortgage_once (env : Env) (value propertyId months : N) (w : World) :
  status (getMortgage propertyId w) <> None_ ->
  (exists e, transact (applyForMortgage env value propertyId months) w = (w, Some e)) /\
  (forall property,
     mgr_entered (manager w) = false ->
     getProperty propertyId (propertyNFT w) = Ok property ->
     transact (applyForMortgage env value propertyId months) w
       = (w, Some (if isListed property then PropertyAlreadyMortgaged
                   else PropertyNotListed))) /\
  (forall env0 value0 months0 w0 w1,
     applyForMortgage env0 value0 propertyId months0 w0 = Ok w1 ->
     payments w1 w ->
     transact (applyForMortgage env value propertyId months) w
       = (w, Some PropertyNotListed)).
Proof.
  intros Hstatus. split; [|split].
  - unfold transact.
    destruct (applyForMortgage env value propertyId months w) as [w'|e] eqn:H;
      [|eauto].
    apply applyForMortgage_Ok in H.
    destruct H as (? & ? & ? & ? & ? & _ & _ & _ & Hnone & _). contradiction.
  - intros property Hguard Hproperty. unfold transact.
    rewrite (applyForMortgage_Revert_at_listing env value propertyId months w property);
      auto.
  - intros env0 value0 months0 w0 w1 H0 Hpayments.
    apply applyForMortgage_Ok in H0.
    destruct H0 as (pr & mo & p' & t1 & t2 & _ & _ & _ & _ & _ & _ & _ & _ & _ & _
                    & Ht1 & Ht2 & Hnft & Hguard1 & _).
    destruct (originated_unlisted _ _ _ _ _ _ _ Ht1 Ht2) as (property & Hget & Hunlisted).
    destruct (payments_registry w1 w Hpayments) as [Hsame Hclear].
    pose proof (Hclear Hguard1) as Hguard.
    rewrite <- Hnft, <- Hsame in Hget. unfold transact.
    rewrite (applyForMortgage_Revert_at_listing env value propertyId months w property);
      auto.
    rewrite Hunlisted. reflexivity.
Qed.

Lemma applyForMortgage_once_witness :
  exists e,
    transact (applyForMortgage (Scenario.call Scenario.alice 30) 20 0 12) Scenario.financed
      = (Scenario.financed, Some e).
Proof.
  refine (proj1 (applyForMortgage_once (Scenario.call Scenario.alice 30) 20 0 12
                   Scenario.financed _)).
  vm_compute. discriminate.
Defined.

(** C9 as stated fails: the loan of the scenario is active, and a second
    application for its asset reverts at the listing check, not with the
    status conflict. *)
Lemma second_application_not_listed :
  applyForMortgage (Scenario.call Scenario.alice 20) 20 0 12 (Scenario.listed 100)
    = Ok Scenario.financed /\
  status (getMortgage 0 Scenario.financed) = Active /\
  transact (applyForMortgage (Scenario.call Scenario.alice 30) 20 0 12) Scenario.financed
    = (Scenario.financed, Some PropertyNotListed) /\
  transact (applyForMortgage (Scenario.call Scenario.alice 30) 20 0 12) Scenario.financed
    <> (Scenario.financed, Some PropertyAlreadyMortgaged).
Proof.
  assert (H : transact (applyForMortgage (Scenario.call Scenario.alice 30) 20 0 12)
                Scenario.financed = (Scenario.financed, Some PropertyNotListed))
    by (vm_compute; reflexivity).
  split; [vm_compute; reflexivity|].
  split; [vm_compute; reflexivity|]. split; [exact H|].
  rewrite H. intros [=].
Qed.

(** C5 (amended): an accepted application has a down payment of at least
    [assetValue * 1000 / 10000], the floor of a tenth of the asset value,
    so that [assetValue <= 10 * downPayment + 9], and records a principal
    with [principal + downPayment = assetValue]; an application with a
    smaller down payment reverts with the down-payment error. *)
Theorem applyForMortgage_down_payment (env : Env) (value propertyId months : N) (w : World) :
  (forall w',
     applyForMortgage env value propertyId months w = Ok w' ->
     exists property,
       getProperty propertyId (propertyNFT w) = Ok property /\
       let m := getMortgage propertyId w' in
       status m = Active /\
       propertyValue m = valueUSD property /\
       downPayment m = value /\
       propertyValue m * 1000 / 10000 <= downPayment m /\
       propertyValue m <= 10 * downPayment m + 9 /\
       loanAmount m + downPayment m = propertyValue m) /\
  (forall property,
     mgr_entered (manager w) = false ->
     getProperty propertyId (propertyNFT w) = Ok property ->
     isListed property = true ->
     status (getMortgage propertyId w) = None_ ->
     valueUSD property * 1000 < UINT256_LIMIT ->
     value < valueUSD property * 1000 / 10000 ->
     transact (applyForMortgage env value propertyId months) w
       = (w, Some InsufficientDownPayment)).
Proof.
  split.
  - intros w' H. apply applyForMortgage_Ok in H.
    destruct H as (property & mo & p' & t1 & t2 & _ & Hproperty & _ & _ & Hmin & Hle
                   & _ & _ & _ & _ & _ & _ & _ & _ & Hm).
    exists property. split; [assumption|]. cbv zeta. rewrite Hm. mortgage_fields.
    change BASIS_POINTS with 10000 in Hmin.
    repeat split; try assumption; try lia.
    assert (valueUSD property < 10 * (valueUSD property * 1000 / 10000 + 1)); [|lia].
    pose proof (N.mul_succ_div_gt (valueUSD property * 1000) 10000). lia.
  - intros property Hguard Hproperty Hlisted Hnone Hfits Hlow.
    unfold transact, applyForMortgage, mgr_nonReentrant. rewrite Hguard. cbv zeta.
    change (propertyNFT (set_mgr_balance _ (set_mgr_entered true w)))
      with (propertyNFT w).
    rewrite Hproperty. cbn [bind]. rewrite Hlisted. cbn [require bind].
    change (getMortgage propertyId (set_mgr_balance _ (set_mgr_entered true w)))
      with (getMortgage propertyId w).
    rewrite Hnone. rewrite (bool_decide_eq_true_2 _ eq_refl). cbn [require bind].
    rewrite mul_fits by assumption. cbn [bind].
    rewrite div_fits by discriminate. cbn [bind].
    change BASIS_POINTS with 10000.
    apply N.leb_gt in Hlow. rewrite Hlow. reflexivity.
Qed.

Lemma applyForMortgage_down_payment_witness :
  exists property,
    getProperty 0 (propertyNFT (Scenario.listed 100)) = Ok property /\
    let m := getMortgage 0 Scenario.financed in
    status m = Active /\
    propertyValue m = valueUSD property /\
    downPayment m = 20 /\
    propertyValue m * 1000 / 10000 <= downPayment m /\
    propertyValue m <= 10 * downPayment m + 9 /\
    loanAmount m + downPayment m = propertyValue m.
Proof.
  refine (proj1 (applyForMortgage_down_payment (Scenario.call Scenario.alice 20) 20 0 12
                   (Scenario.listed 100)) Scenario.financed _).
  vm_compute. reflexivity.
Defined.

(** C5 as stated fails: an asset of value 15 is financed with a down
    payment of 1, which is less than a tenth of 15. *)
Lemma down_payment_below_tenth :
  applyForMortgage (Scenario.call Scenario.alice 20) 1 0 12 (Scenario.listed 15)
    = Ok Scenario.financed_low /\
  propertyValue (getMortgage 0 Scenario.financed_low) = 15 /\
  downPayment (getMortgage 0 Scenario.financed_low) = 1 /\
  10 * downPayment (getMortgage 0 Scenario.financed_low)
    < propertyValue (getMortgage 0 Scenario.financed_low).
Proof. repeat split; vm_compute; reflexivity. Qed.

Lemma after_payment_sound (env : Env) (value : N) (m : Mortgage) :
  status m = Active ->
  ownership_sound m ->
  let m' := after_payment env value m in
  ownership_sound m' /\
  ownershipSharesBPS m <= ownershipSharesBPS m' /\
  (status m' = Active \/ status m' = PaidOff /\ ownershipSharesBPS m' = BASIS_POINTS).
Proof.
  intros Hactive [Hle Hsound] m'. subst m'.
  specialize (Hsound Hactive). unfold ownership_of in Hsound.
  assert (Hmono : totalPaid m * BASIS_POINTS / propertyValue m
                  <= (totalPaid m + value) * BASIS_POINTS / propertyValue m)
    by (apply N.Div0.div_le_mono; lia).
  unfold ownership_sound, ownership_of, after_payment. cbv zeta.
  destruct ((BASIS_POINTS <=? _) || (durationMonths m <=? _)); mortgage_fields.
  - split; [split; [lia | discriminate]|]. split; [lia|]. right. split; reflexivity.
  - split; [split|].
    + lia.
    + intros _. reflexivity.
    + split; [lia|]. left. assumption.
Qed.

Lemma payments_ownership (propertyId : N) (w w' : World) :
  ownership_sound (getMortgage propertyId w) ->
  payments w w' ->
  ownership_sound (getMortgage propertyId w') /\
  ownershipSharesBPS (getMortgage propertyId w)
    <= ownershipSharesBPS (getMortgage propertyId w').
Proof.
  intros Hsound Hpayments.
  induction Hpayments as [w | env value paid w w1 w2 _ IH Hpay].
  - split; [assumption | lia].
  - destruct (IH Hsound) as [Hsound1 Hle1].
    apply makePayment_Ok in Hpay.
    destruct Hpay as (i & p' & Hactive & _ & _ & _ & _ & _ & _ & _ & _ & Hm & Hother & _).
    destruct (N.eq_dec paid propertyId) as [->|Hne].
    + rewrite Hm.
      destruct (after_payment_sound env value _ Hactive Hsound1) as (Hs & Hle & _).
      split; [assumption | lia].
    + rewrite (Hother propertyId Hne). split; assumption.
Qed.

(** C4 (amended): after a successful payment that leaves the loan active,
    the ownership share is [min(10000, totalPaid * 10000 / propertyValue)].
    Otherwise the payment has completed the loan, which happens exactly
    when the share has reached 10000 or the number of payments the term;
    the loan is then paid off and its share is set to 10000, whatever the
    formula gives. Along any sequence of successful payments, starting from
    a loan whose share is recorded soundly (as origination leaves it), the
    share never decreases and never exceeds 10000. *)
Theorem ownership_share_monotone :
  (forall env value propertyId w w',
     makePayment env value propertyId w = Ok w' ->
     let m' := getMortgage propertyId w' in
     (status m' = Active ->
      ownershipSharesBPS m' = N.min 10000 (totalPaid m' * 10000 / propertyValue m')) /\
     (status m' = Active \/ status m' = PaidOff /\ ownershipSharesBPS m' = 10000) /\
     ownershipSharesBPS m' <= 10000 /\
     (status m' = PaidOff <->
      10000 <= totalPaid m' * 10000 / propertyValue m' \/
      durationMonths m' <= paymentsCount m')) /\
  (forall propertyId w w',
     ownership_sound (getMortgage propertyId w) ->
     payments w w' ->
     ownership_sound (getMortgage propertyId w') /\
     ownershipSharesBPS (getMortgage propertyId w)
       <= ownershipSharesBPS (getMortgage propertyId w') /\
     ownershipSharesBPS (getMortgage propertyId w') <= 10000) /\
  (forall env value propertyId months w w',
     applyForMortgage env value propertyId months w = Ok w' ->
     ownership_sound (getMortgage propertyId w')).
Proof.
  split; [|split].
  - intros env value propertyId w w' H m'. subst m'.
    apply makePayment_Ok in H.
    destruct H as (i & p' & Hactive & _ & _ & _ & _ & _ & _ & _ & _ & Hm & _).
    rewrite Hm. clear Hm.
    unfold after_payment. cbv zeta. change BASIS_POINTS with 10000.
    destruct ((10000 <=? _) || (durationMonths _ <=? _)) eqn:Hdone; mortgage_fields.
    + split; [discriminate|]. split; [right; split; reflexivity|]. split; [lia|].
      split; [intros _ | reflexivity].
      apply orb_true_iff in Hdone as [Hshare|Hcount].
      * left. apply N.leb_le in Hshare. lia.
      * right. apply N.leb_le in Hcount. exact Hcount.
    + split; [reflexivity|]. split; [left; assumption|]. split; [lia|].
      apply orb_false_iff in Hdone as [Hshare Hcount].
      apply N.leb_gt in Hshare. apply N.leb_gt in Hcount.
      split; [rewrite Hactive; discriminate|].
      intros [Hfull|Hterm]; lia.
  - intros propertyId w w' Hsound Hpayments.
    destruct (payments_ownership propertyId w w' Hsound Hpayments) as [Hs Hle].
    split; [assumption|]. split; [assumption|]. apply Hs.
  - intros env value propertyId months w w' H.
    apply applyForMortgage_Ok in H.
    destruct H as (property & mo & p' & t1 & t2 & _ & _ & _ & _ & _ & Hle
                   & Hvalue & _ & _ & _ & _ & _ & _ & _ & Hm).
    rewrite Hm. unfold ownership_sound, ownership_of. mortgage_fields.
    assert (value * BASIS_POINTS / valueUSD property <= BASIS_POINTS).
    { apply N.Div0.div_le_upper_bound. nia. }
    split; [assumption | intros _; lia].
Qed.

Lemma ownership_share_monotone_witness :
  ownership_sound (getMortgage 0 Scenario.paid_once) /\
  ownershipSharesBPS (getMortgage 0 Scenario.financed)
    <= ownershipSharesBPS (getMortgage 0 Scenario.paid_once) /\
  ownershipSharesBPS (getMortgage 0 Scenario.paid_once) <= 10000.
Proof.
  refine (proj1 (proj2 ownership_share_monotone) 0 Scenario.financed Scenario.paid_once
            _ _).
  - split; [vm_compute; discriminate | intros _; vm_compute; reflexivity].
  - eapply (payments_more (Scenario.call Scenario.alice 30) 7 0);
      [apply payments_none | vm_compute; reflexivity].
Defined.

(** C4 as stated fails: the loan of 3 over 2 months is active after the
    first payment of 1; the second payment of 1 succeeds and brings the
    total paid to 99 of 100, for which the formula gives 9900, but it is
    the second of two payments: the loan is completed and the share
    recorded is 10000. *)
Lemma completion_by_count_share :
  let m1 := getMortgage 0 Cases.short_term_paid in
  let m2 := getMortgage 0 Cases.short_term_completed in
  makePayment (Scenario.call Scenario.alice 30) 1 0 Cases.short_term
    = Ok Cases.short_term_paid /\
  status m1 = Active /\
  ownershipSharesBPS m1 = 9800 /\
  makePayment (Scenario.call Scenario.alice 40) 1 0 Cases.short_term_paid
    = Ok Cases.short_term_completed /\
  totalPaid m2 = 99 /\
  propertyValue m2 = 100 /\
  N.min 10000 (totalPaid m2 * 10000 / propertyValue m2) = 9900 /\
  status m2 = PaidOff /\
  ownershipSharesBPS m2 = 10000 /\
  ownershipSharesBPS m2 <> N.min 10000 (totalPaid m2 * 10000 / propertyValue m2).
Proof. repeat split; vm_compute; congruence. Qed.

(** ** Defaults *)







(** * Further properties of the pool *)

Lemma total_held_delete (held : gmap address N) (who : address) :
  total_held held = mapping_get 0 held who + total_held (delete who held).
Proof.
  unfold total_held, mapping_get.
  destruct (_ !! _) as [x|] eqn:Hwho; cbn [from_option id].
  - apply (map_fold_delete_L (fun _ shares acc => shares + acc)); [|exact Hwho].
    intros; lia.
  - rewrite (delete_id _ _ Hwho). lia.
Qed.

Lemma total_held_insert (held : gmap address N) (who : address) (x : N) :
  total_held (<[who := x]> held) = x + total_held (delete who held).
Proof.
  rewrite <- insert_delete_eq. unfold total_held.
  apply (map_fold_insert_L (fun _ shares acc => shares + acc)).
  - intros; lia.
  - apply lookup_delete_eq.
Qed.

Lemma pool_step_shares (p p' : Pool) :
  total_held (lpShares p) = totalShares p ->
  pool_step p p' ->
  total_held (lpShares p') = totalShares p'.
Proof.
  intros Hsum Hstep.
  destruct Hstep as
    [env value p p' H | env shares p p' H | env b amount p p' H
    | env value pr i p p' H | env amount p p' H
    | env b p p' H | env b p p' H | value p p' H].
  - invert_pool_call H. pool_fields.
    rewrite total_held_insert.
    rewrite (total_held_delete (lpShares p) (msg_sender env)) in Hsum. lia.
  - invert_pool_call H. pool_fields.
    rewrite total_held_insert.
    rewrite (total_held_delete (lpShares p) (msg_sender env)) in Hsum. lia.
  - invert_pool_call H. exact Hsum.
  - invert_pool_call H. exact Hsum.
  - invert_pool_call H. exact Hsum.
  - unfold authorizeBorrower in H. invert_ok. exact Hsum.
  - unfold revokeBorrower in H. invert_ok. exact Hsum.
  - unfold pool_receive in H. invert_ok. exact Hsum.
Qed.

Lemma pool_reachable_shares (p : Pool) :
  pool_reachable p ->
  total_held (lpShares p) = totalShares p /\
  (forall provider, mapping_get 0 (lpShares p) provider <= totalShares p).
Proof.
  intros Hreach.
  assert (Hsum : total_held (lpShares p) = totalShares p).
  { induction Hreach as [deployer | p p' _ IH Hstep].
    - reflexivity.
    - eapply pool_step_shares; eassumption. }
  split; [assumption|].
  intros provider. rewrite <- Hsum.
  rewrite (total_held_delete (lpShares p) provider). lia.
Qed.

(** X1: the shares are conserved: in every reachable pool [totalShares] is
    the sum of the shares that the providers hold, so that no provider
    holds more than [totalShares]. *)
Theorem shares_conserved (p : Pool) :
  pool_reachable p ->
  total_held (lpShares p) = totalShares p /\
  (forall provider, mapping_get 0 (lpShares p) provider <= totalShares p).
Proof. exact (pool_reachable_shares p). Qed.

Lemma shares_conserved_witness :
  total_held (lpShares Scenario.pool_lent) = totalShares Scenario.pool_lent /\
  (forall provider,
     mapping_get 0 (lpShares Scenario.pool_lent) provider
       <= totalShares Scenario.pool_lent).
Proof. exact (shares_conserved Scenario.pool_lent pool_lent_reachable). Defined.

(** X2: the value of a share never falls: across every successful call of
    the pool made while shares exist, [totalLiquidity / totalShares] does
    not decrease (stated without division). Deposits and withdrawals round
    in favour of the remaining shares; repayments add to the liquidity. *)
Theorem share_value_never_falls (p p' : Pool) :
  pool_step p p' ->
  totalShares p <> 0 ->
  totalLiquidity p * totalShares p' <= totalLiquidity p' * totalShares p.
Proof.
  intros Hstep Hshares.
  destruct Hstep as
    [env value p p' H | env shares p p' H | env b amount p p' H
    | env value pr i p p' H | env amount p p' H
    | env b p p' H | env b p p' H | value p p' H].
  - invert_pool_call H. pool_fields.
    destruct (N.eqb_spec (totalShares p) 0) as [|_]; [contradiction|].
    invert_ok.
    pose proof (N.Div0.mul_div_le (value * totalShares p) (totalLiquidity p)).
    nia.
  - invert_pool_call H. pool_fields.
    pose proof (N.Div0.mul_div_le (shares * totalLiquidity p) (totalShares p)).
    nia.
  - invert_pool_call H. pool_fields. lia.
  - invert_pool_call H. pool_fields. nia.
  - invert_pool_call H. pool_fields. lia.
  - unfold authorizeBorrower in H. invert_ok. cbn. lia.
  - unfold revokeBorrower in H. invert_ok. cbn. lia.
  - unfold pool_receive in H. invert_ok. cbn. lia.
Qed.

Lemma share_value_never_falls_witness :
  totalLiquidity Scenario.pool_seeded * totalShares Scenario.pool_lent
    <= totalLiquidity Scenario.pool_lent * totalShares Scenario.pool_seeded.
Proof.
  apply share_value_never_falls.
  - apply (step_fund (Scenario.call Scenario.managerAddr 20) Scenario.alice 80).
    reflexivity.
  - vm_compute. discriminate.
Defined.

(** X3: a successful withdrawal burns the shares and pays
    [shares * totalLiquidity / totalShares] out of the pool, and nothing
    else changes; a provider who withdraws all the shares held is paid
    exactly what [getShareValue] reports. From a reachable pool the
    withdrawal succeeds when the payout is within the available liquidity
    and the ether of the pool, and the recipient accepts it. *)
Theorem withdrawLiquidity_pays_share_value (env : Env) (shares : N) (p : Pool) :
  let held := mapping_get 0 (lpShares p) (msg_sender env) in
  let ethAmount := shares * totalLiquidity p / totalShares p in
  (forall p',
     withdrawLiquidity env shares p = Ok p' ->
     0 < shares /\ shares <= held /\
     ethAmount <= totalLiquidity p - activeMortgages p /\
     ethAmount <= pool_balance p /\
     mapping_get 0 (lpShares p') (msg_sender env) = held - shares /\
     totalShares p' = totalShares p - shares /\
     totalLiquidity p' = totalLiquidity p - ethAmount /\
     pool_balance p' = pool_balance p - ethAmount /\
     insuranceReserve p' = insuranceReserve p /\
     activeMortgages p' = activeMortgages p /\
     pool_events p'
       = LiquidityWithdrawn (msg_sender env) ethAmount shares :: pool_events p /\
     (shares = held -> getShareValue (msg_sender env) p = Ok ethAmount)) /\
  (pool_reachable p ->
   0 < shares -> shares <= held ->
   shares * totalLiquidity p < UINT256_LIMIT ->
   ethAmount <= totalLiquidity p - activeMortgages p ->
   ethAmount <= pool_balance p ->
   recipient_accepts env = true ->
   exists p', withdrawLiquidity env shares p = Ok p').
Proof.
  intros held ethAmount. split.
  - intros p' H. subst held ethAmount. invert_pool_call H. pool_fields.
    unfold pool_send_value in *. invert_ok. pool_fields.
    unfold mapping_get in *. rewrite lookup_insert_eq. cbn [from_option id].
    repeat split; try assumption; try reflexivity.
    intros Hall. unfold getShareValue, mapping_get. rewrite <- Hall.
    destruct (N.eqb_spec shares 0) as [Hz|_]; [lia|].
    destruct (N.eqb_spec (totalShares p) 0) as [Hz|_]; [contradiction|].
    cbn [orb]. rewrite mul_fits by assumption. cbn [bind].
    apply div_fits. assumption.
  - intros Hreach Hpos Hheld Hfits Havailable Hbalance Haccepts.
    pose proof (pool_reachable_invariant p Hreach) as [Hg Hc Hp].
    destruct (pool_reachable_shares p Hreach) as [_ Hle].
    specialize (Hle (msg_sender env)). fold held in Hle.
    unfold withdrawLiquidity, pool_nonReentrant. rewrite Hg. pool_fields.
    fold held.
    apply N.leb_le in Hheld. rewrite Hheld. cbn [require bind].
    apply N.leb_le in Hheld.
    apply N.ltb_lt in Hpos. rewrite Hpos. cbn [require bind].
    apply N.ltb_lt in Hpos.
    rewrite mul_fits by assumption. cbn [bind].
    rewrite div_fits by lia. cbn [bind]. fold ethAmount.
    rewrite sub_fits by assumption. cbn [bind].
    apply N.leb_le in Havailable. rewrite Havailable. cbn [require bind].
    apply N.leb_le in Havailable.
    rewrite sub_fits by assumption. cbn [bind].
    rewrite sub_fits by lia. cbn [bind].
    rewrite sub_fits by lia. cbn [bind].
    unfold pool_send_value. pool_fields.
    apply N.leb_le in Hbalance. rewrite Hbalance, Haccepts. cbn [andb require bind].
    eauto.
Qed.

Lemma withdrawLiquidity_pays_share_value_witness :
  exists p', withdrawLiquidity (Scenario.call Scenario.lender 40) 20 Scenario.pool_lent
             = Ok p'.
Proof.
  refine (proj2 (withdrawLiquidity_pays_share_value (Scenario.call Scenario.lender 40) 20
                   Scenario.pool_lent) pool_lent_reachable _ _ _ _ _ _);
    vm_compute; congruence.
Defined.

(** X4: depositing and at once withdrawing the minted shares never takes
    ether out of the pool: when shares exist, or the pool is empty, the
    payout is at most the deposit, [totalShares] is back to what it was and
    [totalLiquidity] is not below it; yet the insurance reserve keeps the
    cut [value * 200 / 10000] of the deposit that has left. *)
Theorem deposit_then_withdraw (env env' : Env) (value : N) (p p1 p2 : Pool) :
  let minted :=
    if totalShares p =? 0 then value
    else value * totalShares p / totalLiquidity p in
  totalShares p <> 0 \/ totalLiquidity p = 0 ->
  depositLiquidity env value p = Ok p1 ->
  withdrawLiquidity env' minted p1 = Ok p2 ->
  pool_balance p <= pool_balance p2 /\
  pool_balance p2 <= pool_balance p + value /\
  totalLiquidity p <= totalLiquidity p2 /\
  totalShares p2 = totalShares p /\
  activeMortgages p2 = activeMortgages p /\
  insuranceReserve p2 = insuranceReserve p + value * 200 / 10000.
Proof.
  intros minted Hpriced Hdeposit Hwithdraw.
  invert_pool_call Hdeposit. invert_pool_call Hwithdraw.
  pool_fields.
  change INSURANCE_RATE with 200. change BASIS_POINTS with 10000.
  set (paid := minted * (totalLiquidity p + value) / _) in *.
  assert (Hpaid : paid <= value).
  { subst paid minted.
    destruct (N.eqb_spec (totalShares p) 0) as [Hz|Hnz]; invert_ok.
    - destruct Hpriced as [|Hl]; [contradiction|]. rewrite Hz, Hl in *.
      apply N.Div0.div_le_upper_bound. lia.
    - apply N.Div0.div_le_upper_bound.
      pose proof (N.Div0.mul_div_le (value * totalShares p) (totalLiquidity p)).
      nia. }
  assert (Hminted : forall x, x + minted - minted = x) by (intros; lia).
  repeat split; try lia.
  subst minted. destruct (N.eqb_spec (totalShares p) 0); invert_ok; lia.
Qed.

Lemma deposit_then_withdraw_witness :
  pool_balance Scenario.pool_lent <= pool_balance Cases.pool_rewithdrawn /\
  insuranceReserve Cases.pool_rewithdrawn
    = insuranceReserve Scenario.pool_lent + 10 * 200 / 10000.
Proof.
  assert (Hpriced : totalShares Scenario.pool_lent <> 0
                    \/ totalLiquidity Scenario.pool_lent = 0)
    by (left; vm_compute; discriminate).
  assert (H1 : depositLiquidity (Scenario.call Scenario.alice 50) 10 Scenario.pool_lent
               = Ok Cases.pool_redeposited)
    by (vm_compute; reflexivity).
  assert (H2 : withdrawLiquidity (Scenario.call Scenario.alice 51) 10
                 Cases.pool_redeposited = Ok Cases.pool_rewithdrawn)
    by (vm_compute; reflexivity).
  destruct (deposit_then_withdraw (Scenario.call Scenario.alice 50)
              (Scenario.call Scenario.alice 51) 10 Scenario.pool_lent
              Cases.pool_redeposited Cases.pool_rewithdrawn Hpriced H1 H2)
    as (Hb & _ & _ & _ & _ & Hr).
  split; [exact Hb | exact Hr].
Defined.

Lemma pool_call_balance (donated : N) (p p' : Pool) :
  pool_balance p + activeMortgages p <= totalLiquidity p + donated ->
  pool_call p p' ->
  pool_balance p' + activeMortgages p' <= totalLiquidity p' + donated.
Proof.
  intros Hbound Hcall.
  destruct Hcall as
    [env value p p' H | env shares p p' H | env b amount p p' H
    | env value pr i p p' H | env amount p p' H
    | env b p p' H | env b p p' H].
  - invert_pool_call H. pool_fields. lia.
  - invert_pool_call H. unfold pool_send_value in *. invert_ok. pool_fields. lia.
  - invert_pool_call H. unfold pool_send_value in *. invert_ok. pool_fields. lia.
  - invert_pool_call H. pool_fields. lia.
  - invert_pool_call H. pool_fields. lia.
  - unfold authorizeBorrower in H. invert_ok. exact Hbound.
  - unfold revokeBorrower in H. invert_ok. exact Hbound.
Qed.

(** X5: the ether of the pool is bounded by its books: after any calls,
    the balance plus the capital lent out is at most [totalLiquidity] plus
    the ether sent to the pool through [receive()]. Without such transfers
    the balance never exceeds the available liquidity: a funding within the
    available liquidity but above the balance reverts at the transfer. *)
Theorem pool_balance_within_books (donated : N) (p : Pool) :
  pool_received donated p ->
  pool_balance p + activeMortgages p <= totalLiquidity p + donated /\
  (donated = 0 ->
   availableLiquidity p = Ok (totalLiquidity p - activeMortgages p) /\
   pool_balance p <= totalLiquidity p - activeMortgages p) /\
  (forall env borrower amount,
     mapping_get false (authorizedBorrowers p) (msg_sender env) = true ->
     amount <= totalLiquidity p - activeMortgages p ->
     pool_balance p < amount ->
     activeMortgages p + amount < UINT256_LIMIT ->
     transact (fundMortgage env borrower amount) p = (p, Some ETHTransferFailed)).
Proof.
  intros Hreceived.
  assert (Hinv : pool_balance p + activeMortgages p <= totalLiquidity p + donated
                 /\ pool_invariant p).
  { induction Hreceived as [deployer | donated p p' _ [IH IHinv] Hcall
                           | donated value p p' _ [IH IHinv] Hplain].
    - split; [cbn; lia|]. split; cbn; [reflexivity | lia | congruence].
    - split; [eapply pool_call_balance; eassumption|].
      eapply pool_step_invariant; [eassumption|].
      destruct Hcall; [eapply step_deposit | eapply step_withdraw | eapply step_fund
                      | eapply step_repayment | eapply step_cover
                      | eapply step_authorize | eapply step_revoke]; eassumption.
    - split.
      + unfold pool_receive in Hplain. invert_ok. pool_fields. lia.
      + eapply pool_step_invariant; [eassumption|].
        eapply step_receive; eassumption. }
  destruct Hinv as [Hbound [Hg Hc Hp]].
  split; [assumption|]. split.
  - intros ->. split; [apply sub_fits; assumption | lia].
  - intros env borrower amount Hauth Havailable Hshort Hfits.
    unfold transact, fundMortgage, pool_nonReentrant. rewrite Hg. pool_fields.
    rewrite Hauth. cbn [require bind].
    rewrite sub_fits by assumption. cbn [bind].
    apply N.leb_le in Havailable. rewrite Havailable. cbn [require bind].
    rewrite add_fits by assumption. cbn [bind].
    unfold pool_send_value. pool_fields.
    apply N.leb_gt in Hshort. rewrite Hshort. reflexivity.
Qed.

Lemma pool_lent_received : pool_received 0 Scenario.pool_lent.
Proof.
  eapply received_call;
    [eapply received_call;
       [eapply received_call; [apply (received_deployed Scenario.deployer)|] |] |].
  - eapply (call_authorize (Scenario.call Scenario.deployer 0) Scenario.managerAddr).
    reflexivity.
  - eapply (call_deposit (Scenario.call Scenario.lender 10) 100). reflexivity.
  - eapply (call_fund (Scenario.call Scenario.managerAddr 20) Scenario.alice 80).
    reflexivity.
Qed.

Lemma pool_balance_within_books_witness :
  pool_balance Scenario.pool_lent + activeMortgages Scenario.pool_lent
    <= totalLiquidity Scenario.pool_lent + 0.
Proof.
  exact (proj1 (pool_balance_within_books 0 Scenario.pool_lent pool_lent_received)).
Defined.

(** X6: lending, repayment and cover are reserved to authorized callers:
    a caller that the owner has not authorized, or has revoked, gets
    "Not authorized" from all three and changes nothing; only the owner can
    authorize or revoke, and a freshly deployed pool authorizes nobody. *)
Theorem gated_calls_need_authorization (env : Env) (p : Pool) :
  pool_entered p = false ->
  (mapping_get false (authorizedBorrowers p) (msg_sender env) = false ->
   (forall borrower amount,
      transact (fundMortgage env borrower amount) p = (p, Some NotAuthorized)) /\
   (forall value principal interest,
      transact (receiveMortgagePayment env value principal interest) p
        = (p, Some NotAuthorized)) /\
   (forall amount,
      transact (coverDefault env amount) p = (p, Some NotAuthorized))) /\
  (msg_sender env <> pool_owner p ->
   forall who,
     transact (authorizeBorrower env who) p = (p, Some OwnableUnauthorizedAccount) /\
     transact (revokeBorrower env who) p = (p, Some OwnableUnauthorizedAccount)) /\
  (msg_sender env = pool_owner p ->
   forall who,
     exists p1 p2,
       authorizeBorrower env who p = Ok p1 /\
       mapping_get false (authorizedBorrowers p1) who = true /\
       revokeBorrower env who p1 = Ok p2 /\
       mapping_get false (authorizedBorrowers p2) who = false) /\
  (forall deployer who,
     mapping_get false (authorizedBorrowers (pool_constructor deployer)) who = false).
Proof.
  intros Hguard. split; [|split; [|split]].
  - intros Hnot. repeat split; intros;
      unfold transact, fundMortgage, receiveMortgagePayment, coverDefault,
        pool_nonReentrant;
      rewrite Hguard; pool_fields; rewrite Hnot; reflexivity.
  - intros Hne who. apply N.eqb_neq in Hne.
    unfold transact, authorizeBorrower, revokeBorrower, pool_onlyOwner.
    rewrite Hne. split; reflexivity.
  - intros Howner who. apply N.eqb_eq in Howner.
    exists (pool_set_authorized who true p),
           (pool_set_authorized who false (pool_set_authorized who true p)).
    unfold authorizeBorrower, revokeBorrower, pool_onlyOwner, mapping_get,
      pool_set_authorized.
    pool_fields. rewrite Howner. cbn [require bind].
    rewrite !lookup_insert_eq. repeat split; reflexivity.
  - intros deployer who. reflexivity.
Qed.

Lemma gated_calls_need_authorization_witness :
  transact (coverDefault (Scenario.call Scenario.alice 30) 1) Scenario.pool_lent
    = (Scenario.pool_lent, Some NotAuthorized).
Proof.
  refine (proj2 (proj2 (proj1 (gated_calls_need_authorization
                                 (Scenario.call Scenario.alice 30)
                                 Scenario.pool_lent _) _)) 1);
    vm_compute; reflexivity.
Defined.

(** * Further properties of the registry *)

Lemma getProperty_set_property (q tokenId : N) (pr : Property) (e : list NFTEvent)
    (t : PropertyNFT) :
  getProperty q (set_property tokenId pr e t) =
    if _ownerOf q t =? 0 then Revert PropertyDoesNotExist
    else Ok (if decide (tokenId = q) then pr
             else mapping_get zero_property (properties t) q).
Proof.
  unfold getProperty, set_property, _ownerOf, mapping_get.
  cbn [erc721_owners properties].
  destruct (_ =? 0); cbn [negb require bind];
    [reflexivity|].
  destruct (decide (tokenId = q)) as [->|Hne].
  - rewrite lookup_insert_eq. reflexivity.
  - rewrite lookup_insert_ne by assumption. reflexivity.
Qed.

Lemma ownerOf_set_property (q tokenId : N) (pr : Property) (e : list NFTEvent)
    (t : PropertyNFT) :
  _ownerOf q (set_property tokenId pr e t) = _ownerOf q t.
Proof. reflexivity. Qed.

Lemma listProperty_by_owner (env : Env) (tokenId : N) (t : PropertyNFT) :
  msg_sender env = nft_owner t ->
  _ownerOf tokenId t <> 0 ->
  listProperty env tokenId t
    = Ok (set_property tokenId
            (listed_at (block_timestamp env)
               (mapping_get zero_property (properties t) tokenId))
            [PropertyListed tokenId (block_timestamp env)] t).
Proof.
  intros Howner Hminted. apply N.eqb_eq in Howner. apply N.eqb_neq in Hminted.
  unfold listProperty, nft_onlyOwner. rewrite Howner. cbn [require bind].
  rewrite Hminted. reflexivity.
Qed.

Lemma unlistProperty_by_owner (env : Env) (tokenId : N) (t : PropertyNFT) :
  msg_sender env = nft_owner t ->
  unlistProperty env tokenId t
    = Ok (set_property tokenId
            (unlisted (mapping_get zero_property (properties t) tokenId))
            [PropertyUnlisted tokenId] t).
Proof.
  intros Howner. apply N.eqb_eq in Howner.
  unfold unlistProperty, nft_onlyOwner. rewrite Howner. reflexivity.
Qed.

(** X7: listing in the registry. Only the owner of the registry lists and
    unlists. A token that was never minted cannot be read or listed
    ("Property does not exist"), but [unlistProperty] does not check
    existence and goes through. For a minted token, listing sets the flag
    and the timestamp, unlisting clears the flag only, and both keep the
    value and leave every other token as it was. *)
Theorem registry_listing (env : Env) (tokenId : N) (t : PropertyNFT) :
  (msg_sender env <> nft_owner t ->
   listProperty env tokenId t = Revert OwnableUnauthorizedAccount /\
   unlistProperty env tokenId t = Revert OwnableUnauthorizedAccount) /\
  (msg_sender env = nft_owner t ->
   _ownerOf tokenId t = 0 ->
   getProperty tokenId t = Revert PropertyDoesNotExist /\
   listProperty env tokenId t = Revert PropertyDoesNotExist /\
   exists t', unlistProperty env tokenId t = Ok t' /\
              getProperty tokenId t' = Revert PropertyDoesNotExist) /\
  (msg_sender env = nft_owner t ->
   _ownerOf tokenId t <> 0 ->
   exists property t1 t2 listed unlisted,
     getProperty tokenId t = Ok property /\
     listProperty env tokenId t = Ok t1 /\
     getProperty tokenId t1 = Ok listed /\
     isListed listed = true /\
     listedTimestamp listed = block_timestamp env /\
     valueUSD listed = valueUSD property /\
     unlistProperty env tokenId t1 = Ok t2 /\
     getProperty tokenId t2 = Ok unlisted /\
     isListed unlisted = false /\
     listedTimestamp unlisted = block_timestamp env /\
     valueUSD unlisted = valueUSD property /\
     (forall other, other <> tokenId ->
        getProperty other t2 = getProperty other t)).
Proof.
  split; [|split].
  - intros Hne. apply N.eqb_neq in Hne.
    unfold listProperty, unlistProperty, nft_onlyOwner. rewrite Hne.
    split; reflexivity.
  - intros Howner Hnone.
    split; [unfold getProperty; rewrite Hnone; reflexivity|].
    split.
    { apply N.eqb_eq in Howner. unfold listProperty, nft_onlyOwner.
      rewrite Howner, Hnone. reflexivity. }
    eexists. split; [apply unlistProperty_by_owner; assumption|].
    rewrite getProperty_set_property, Hnone. reflexivity.
  - intros Howner Hminted.
    pose proof Hminted as Hexists. apply N.eqb_neq in Hexists.
    set (property := mapping_get zero_property (properties t) tokenId).
    set (t1 := set_property tokenId (listed_at (block_timestamp env) property)
                 [PropertyListed tokenId (block_timestamp env)] t).
    exists property, t1,
      (set_property tokenId (unlisted (listed_at (block_timestamp env) property))
         [PropertyUnlisted tokenId] t1),
      (listed_at (block_timestamp env) property),
      (unlisted (listed_at (block_timestamp env) property)).
    split; [unfold getProperty; rewrite Hexists; reflexivity|].
    split; [apply listProperty_by_owner; assumption|].
    split; [subst t1; rewrite getProperty_set_property, Hexists,
              decide_True by reflexivity; reflexivity|].
    do 3 (split; [reflexivity|]).
    split.
    { rewrite (unlistProperty_by_owner env tokenId t1) by exact Howner.
      subst t1. unfold mapping_get, set_property at 2. cbn [properties].
      rewrite lookup_insert_eq. reflexivity. }
    split; [subst t1; rewrite getProperty_set_property, ownerOf_set_property,
              Hexists, decide_True by reflexivity; reflexivity|].
    do 3 (split; [reflexivity|]).
    intros other Hother. subst t1.
    rewrite !getProperty_set_property, ownerOf_set_property.
    rewrite decide_False by congruence.
    unfold getProperty.
    destruct (_ownerOf other t =? 0); cbn [negb require bind]; [reflexivity|].
    unfold mapping_get, set_property. cbn [properties].
    rewrite lookup_insert_ne by congruence. reflexivity.
Qed.

Lemma registry_listing_witness :
  exists t',
    unlistProperty (Scenario.call Scenario.managerAddr 5) 7 (Scenario.registry 100) = Ok t' /\
    getProperty 7 t' = Revert PropertyDoesNotExist.
Proof.
  destruct (proj1 (proj2 (registry_listing (Scenario.call Scenario.managerAddr 5) 7
                            (Scenario.registry 100))))
    as (_ & _ & Hunlist); [reflexivity | reflexivity | exact Hunlist].
Defined.

(** * Further properties of the loan ledger *)

(** The storage of the manager after a successful application. *)
Lemma applyForMortgage_manager (env : Env) (value propertyId months : N) (w w' : World) :
  applyForMortgage env value propertyId months w = Ok w' ->
  let g := manager w in
  exists property monthly,
    getProperty propertyId (propertyNFT w) = Ok property /\
    status (getMortgage propertyId w) = None_ /\
    value <= valueUSD property /\
    valueUSD property <> 0 /\
    calculateMonthlyPayment (valueUSD property - value)
      (defaultInterestRateBPS g) months = Ok monthly /\
    valueUSD property * 1000 < UINT256_LIMIT /\
    totalActiveMortgages g + 1 < UINT256_LIMIT /\
    getMortgage propertyId w' =
      originated env value propertyId months (defaultInterestRateBPS g)
        (valueUSD property) monthly /\
    manager w' =
      {| mortgages :=
           <[propertyId :=
               originated env value propertyId months (defaultInterestRateBPS g)
                 (valueUSD property) monthly]> (mortgages g);
         borrowerMortgages :=
           <[msg_sender env :=
               mapping_get [] (borrowerMortgages g) (msg_sender env) ++ [propertyId]]>
             (borrowerMortgages g);
         totalActiveMortgages := totalActiveMortgages g + 1;
         defaultInterestRateBPS := defaultInterestRateBPS g;
         mgr_owner := mgr_owner g; mgr_entered := false; mgr_self := mgr_self g;
         mgr_balance := mgr_balance g + value;
         mgr_events :=
           MortgageActivated propertyId (msg_sender env)
             :: MortgageApplied propertyId (msg_sender env) (valueUSD property - value) value
             :: mgr_events g |}.
Proof.
  intros H g.
  pose proof (applyForMortgage_Ok _ _ _ _ _ _ H)
    as (property0 & monthly0 & _ & _ & _ & _ & Hproperty0 & _ & Hnone0 & _ & Hle0
        & Hvalue0 & Hmonthly0 & _ & _ & _ & _ & _ & _ & Hrecord).
  unfold applyForMortgage in H.
  apply mgr_nonReentrant_Ok in H. destruct H as (Hguard & u & H & ->).
  cbv zeta in H.
  apply bind_Ok in H as (property & Hproperty & H).
  change (propertyNFT (set_mgr_balance _ (set_mgr_entered true w)))
    with (propertyNFT w) in Hproperty.
  assert (property = property0) as -> by congruence.
  apply bind_Ok in H as ([] & _ & H).
  apply bind_Ok in H as ([] & _ & H).
  apply bind_Ok in H as (n & Hn & H). apply mul_Ok in Hn as [Hfits ->].
  apply bind_Ok in H as (minDown & Hmin & H). apply div_Ok in Hmin as [_ ->].
  apply bind_Ok in H as ([] & _ & H).
  apply bind_Ok in H as (loan & Hloan & H). apply sub_Ok in Hloan as [Hle ->].
  apply bind_Ok in H as (monthly & Hmonthly & H).
  world_fields in Hmonthly.
  assert (monthly = monthly0) as -> by congruence.
  apply bind_Ok in H as (available & _ & H).
  apply bind_Ok in H as ([] & _ & H).
  apply bind_Ok in H as (n & Hn & H). apply mul_Ok in Hn as [_ ->].
  apply bind_Ok in H as (bps & Hbps & H). apply div_Ok in Hbps as [_ ->].
  unfold _activateMortgage in H. cbv zeta in H.
  apply bind_Ok in H as ([] & _ & H).
  apply bind_Ok in H as (count & Hcount & H).
  world_fields in Hcount. apply add_Ok in Hcount as [Hcount ->].
  apply bind_Ok in H as (p' & _ & H).
  apply bind_Ok in H as (t1 & _ & H).
  apply bind_Ok in H as (t2 & _ & H).
  injection H as <-.
  exists property0, monthly0.
  split; [exact Hproperty0|]. split; [exact Hnone0|]. split; [exact Hle0|].
  split; [exact Hvalue0|]. split; [exact Hmonthly0|].
  split; [exact Hfits|]. split; [exact Hcount|].
  split; [exact Hrecord|].
  unfold getMortgage, mapping_get. world_fields.
  rewrite !lookup_insert_eq, insert_insert_eq. reflexivity.
Qed.

Lemma after_payment_completes (env : Env) (value : N) (m : Mortgage) :
  after_payment env value m =
    let m' :=
      with_payment (totalPaid m + value) (block_timestamp env) (paymentsCount m + 1)
        (N.min BASIS_POINTS ((totalPaid m + value) * BASIS_POINTS / propertyValue m)) m in
    if payment_completes env value m
    then with_ownership BASIS_POINTS (with_status PaidOff m')
    else m'.
Proof. reflexivity. Qed.

(** The storage of the manager after a successful payment. *)
Lemma makePayment_manager (env : Env) (value propertyId : N) (w w' : World) :
  makePayment env value propertyId w = Ok w' ->
  let g := manager w in
  let m := getMortgage propertyId w in
  (payment_completes env value m = true -> 1 <= totalActiveMortgages g) /\
  manager w' =
    {| mortgages := <[propertyId := after_payment env value m]> (mortgages g);
       borrowerMortgages := borrowerMortgages g;
       totalActiveMortgages :=
         if payment_completes env value m then totalActiveMortgages g - 1
         else totalActiveMortgages g;
       defaultInterestRateBPS := defaultInterestRateBPS g;
       mgr_owner := mgr_owner g; mgr_entered := false; mgr_self := mgr_self g;
       mgr_balance := mgr_balance g + value - value;
       mgr_events :=
         (if payment_completes env value m
          then [MortgageCompleted propertyId (borrower m)] else [])
         ++ PaymentReceived propertyId (msg_sender env) value
              (N.min BASIS_POINTS
                 ((totalPaid m + value) * BASIS_POINTS / propertyValue m))
         :: mgr_events g |}.
Proof.
  intros H g m. unfold makePayment in H.
  apply mgr_nonReentrant_Ok in H. destruct H as (Hguard & u & H & ->).
  change (getMortgage propertyId (set_mgr_balance _ (set_mgr_entered true w)))
    with m in H.
  cbv zeta in H.
  apply bind_Ok in H as ([] & _ & H).
  apply bind_Ok in H as ([] & _ & H).
  apply bind_Ok in H as (expected & _ & H).
  apply bind_Ok in H as ([] & _ & H).
  apply bind_Ok in H as (interest & _ & H).
  apply bind_Ok in H as (principal & _ & H).
  apply bind_Ok in H as (paid' & Hpaid & H). apply add_Ok in Hpaid as [_ ->].
  apply bind_Ok in H as (count' & Hcount & H). apply add_Ok in Hcount as [_ ->].
  apply bind_Ok in H as (n & Hn & H). apply mul_Ok in Hn as [_ ->].
  apply bind_Ok in H as (bps0 & Hbps0 & H). apply div_Ok in Hbps0 as [_ ->].
  apply bind_Ok in H as (p' & _ & H).
  assert (Hbps : (if BASIS_POINTS <? (totalPaid m + value) * BASIS_POINTS / propertyValue m
                  then BASIS_POINTS
                  else (totalPaid m + value) * BASIS_POINTS / propertyValue m)
                 = N.min BASIS_POINTS
                     ((totalPaid m + value) * BASIS_POINTS / propertyValue m)).
  { destruct (N.ltb_spec BASIS_POINTS
                ((totalPaid m + value) * BASIS_POINTS / propertyValue m)); lia. }
  rewrite Hbps in H. rewrite after_payment_completes. cbv zeta.
  unfold payment_completes. cbv zeta.
  destruct ((BASIS_POINTS <=? _) || (durationMonths m <=? _)).
  - unfold _completeMortgage in H. cbv zeta in H.
    apply bind_Ok in H as (k & Hk & H). world_fields in Hk.
    apply sub_Ok in Hk as [Hone ->].
    injection H as <-. split; [intros _; exact Hone|].
    unfold getMortgage, mapping_get. world_fields.
    rewrite !lookup_insert_eq, insert_insert_eq. reflexivity.
  - injection H as <-. split; [discriminate|]. reflexivity.
Qed.

(** The storage of the manager after a successful default check. *)
Lemma checkDefault_manager (env : Env) (propertyId : N) (w w' : World) :
  checkDefault env propertyId w = Ok w' ->
  let g := manager w in
  let m := getMortgage propertyId w in
  status m = Active /\
  lastPaymentTimestamp m <= block_timestamp env /\
  ((block_timestamp env - lastPaymentTimestamp m <= DEFAULT_PERIOD /\ w' = w) \/
   (DEFAULT_PERIOD < block_timestamp env - lastPaymentTimestamp m /\
    1 <= totalActiveMortgages g /\
    manager w' =
      {| mortgages := <[propertyId := with_status Foreclosed m]> (mortgages g);
         borrowerMortgages := borrowerMortgages g;
         totalActiveMortgages := totalActiveMortgages g - 1;
         defaultInterestRateBPS := defaultInterestRateBPS g;
         mgr_owner := mgr_owner g; mgr_entered := mgr_entered g;
         mgr_self := mgr_self g; mgr_balance := mgr_balance g;
         mgr_events :=
           PropertyForeclosed propertyId (borrower m)
             :: MortgageDefaulted propertyId (borrower m) :: mgr_events g |})).
Proof.
  intros H g m. unfold checkDefault in H. cbv zeta in H. fold m in H.
  apply bind_Ok in H as ([] & Hactive & H). apply require_Ok in Hactive.
  apply bool_decide_eq_true in Hactive.
  apply bind_Ok in H as (elapsed & Helapsed & H).
  apply sub_Ok in Helapsed as [Hlast ->].
  split; [assumption|]. split; [assumption|].
  destruct (N.ltb_spec DEFAULT_PERIOD (block_timestamp env - lastPaymentTimestamp m))
    as [Hlate|Hearly].
  - right. split; [assumption|].
    unfold _handleDefault in H. cbv zeta in H. fold m in H.
    apply bind_Ok in H as (count & Hcount & H). world_fields in Hcount.
    apply sub_Ok in Hcount as [Hone ->].
    split; [assumption|].
    apply bind_Ok in H as (paidAmount & _ & H).
    apply bind_Ok in H as (remaining & _ & H).
    apply bind_Ok in H as (covered & Hcovered & H).
    assert (Hsame : manager covered
                    = manager (set_totalActiveMortgages (totalActiveMortgages g - 1)
                                 (set_mortgage propertyId (with_status Defaulted m) w))).
    { destruct (0 <? remaining);
        [apply bind_Ok in Hcovered as (c & _ & Hcovered);
         destruct (c <=? _);
           [apply bind_Ok in Hcovered as (q & _ & Hcovered)|]|];
        injection Hcovered as <-; reflexivity. }
    unfold _foreclose in H. cbv zeta in H.
    apply bind_Ok in H as (t1 & _ & H).
    apply bind_Ok in H as (t2 & _ & H).
    injection H as <-.
    unfold getMortgage, mapping_get. world_fields. rewrite Hsame. world_fields.
    rewrite !lookup_insert_eq, insert_insert_eq. reflexivity.
  - left. split; [assumption|]. injection H as <-. reflexivity.
Qed.

(** ** Counting the active loans *)

Lemma active_loans_delete (records : gmap N Mortgage) (k : N) :
  active_loans records
  = ((if bool_decide (status (mapping_get zero_mortgage records k) = Active)
      then 1 else 0)
     + active_loans (delete k records))%nat.
Proof.
  unfold active_loans, mapping_get.
  rewrite map_filter_delete, map_size_delete.
  destruct (records !! k) as [m|] eqn:Hk; cbn [from_option id].
  - case_bool_decide as Hactive.
    + assert (Hin : filter (fun entry : N * Mortgage => status entry.2 = Active)
                      records !! k = Some m)
        by (apply map_lookup_filter_Some; split; assumption).
      rewrite Hin.
      pose proof (map_size_ne_0_lookup_2 _ k (mk_is_Some _ _ Hin)). lia.
    + assert (Hout : filter (fun entry : N * Mortgage => status entry.2 = Active)
                       records !! k = None).
      { apply map_lookup_filter_None. right. intros x Hx.
        assert (x = m) as -> by congruence. exact Hactive. }
      rewrite Hout. reflexivity.
  - rewrite bool_decide_eq_false_2 by discriminate.
    assert (Hout : filter (fun entry : N * Mortgage => status entry.2 = Active)
                     records !! k = None)
      by (apply map_lookup_filter_None; left; assumption).
    rewrite Hout. reflexivity.
Qed.

Lemma active_loans_insert (records : gmap N Mortgage) (k : N) (m : Mortgage) :
  active_loans (<[k := m]> records)
  = ((if bool_decide (status m = Active) then 1 else 0)
     + active_loans (delete k records))%nat.
Proof.
  rewrite (active_loans_delete (<[k := m]> records) k).
  unfold mapping_get. rewrite lookup_insert_eq, delete_insert_eq. reflexivity.
Qed.

Lemma getMortgage_inserted (k q : N) (m : Mortgage) (w w' : World) :
  mortgages (manager w') = <[k := m]> (mortgages (manager w)) ->
  getMortgage q w' = if decide (k = q) then m else getMortgage q w.
Proof.
  intros H. unfold getMortgage, mapping_get. rewrite H.
  destruct (decide (k = q)) as [->|Hne].
  - rewrite lookup_insert_eq. reflexivity.
  - rewrite lookup_insert_ne by assumption. reflexivity.
Qed.

(** ** The invariant of the manager *)

Lemma zero_loan_invariant : loan_invariant zero_mortgage.
Proof. left. split; reflexivity. Qed.

Lemma originated_terms (env : Env) (value pid months rate price monthly : N) :
  rate <= 2000 ->
  value <= price ->
  price <> 0 ->
  price * 1000 < UINT256_LIMIT ->
  calculateMonthlyPayment (price - value) rate months = Ok monthly ->
  loan_terms (originated env value pid months rate price monthly).
Proof.
  intros Hrate Hle Hvalue Hfits Hmonthly.
  split; unfold originated; mortgage_fields; try assumption; try lia.
  unfold ownership_sound, ownership_of. mortgage_fields.
  assert (value * BASIS_POINTS / price <= BASIS_POINTS)
    by (apply N.Div0.div_le_upper_bound; nia).
  split; [assumption | intros _; lia].
Qed.

Lemma paid_terms (env : Env) (value : N) (m : Mortgage) :
  status m = Active ->
  loan_terms m ->
  loan_terms (after_payment env value m) /\
  (status (after_payment env value m) = Active /\
   payment_completes env value m = false \/
   status (after_payment env value m) = PaidOff /\
   payment_completes env value m = true).
Proof.
  intros Hactive [Hrate Hmonthly Hprincipal Hvalue Hfits Hpaid Hshare Hwithin].
  destruct (after_payment_sound env value m Hactive Hshare) as (Hsound & _ & _).
  rewrite after_payment_completes in *. cbv zeta in *.
  unfold payment_completes in *. cbv zeta.
  destruct (BASIS_POINTS <=? _) eqn:Hfull; cbn [orb] in *.
  - split; [|right; split; reflexivity].
    split; mortgage_fields; try assumption; try lia. discriminate.
  - destruct (durationMonths m <=? _) eqn:Hcount.
    + split; [|right; split; reflexivity].
      split; mortgage_fields; try assumption; try lia. discriminate.
    + split; [|left; split; [assumption | reflexivity]].
      split; mortgage_fields; try assumption; try lia.
      intros _. apply N.leb_gt in Hfull. unfold BASIS_POINTS in *.
      destruct (N.le_gt_cases (totalPaid m + value) (propertyValue m)) as [|Hgt];
        [assumption|].
      assert (10000 <= (totalPaid m + value) * 10000 / propertyValue m)
        by (apply N.div_le_lower_bound; [assumption | nia]).
      lia.
Qed.

Lemma manager_step_invariant (w w' : World) :
  manager_invariant w -> manager_step w w' -> manager_invariant w'.
Proof.
  intros [Hguard Hrate Hloans Hcount] Hstep.
  destruct Hstep as [env value pid months w w' H | env value pid w w' H
                    | env pid w w' H | env rate w w' H].
  - pose proof (applyForMortgage_manager _ _ _ _ _ _ H)
      as (property & monthly & Hproperty & Hnone & Hle & Hvalue & Hmonthly & Hfits
          & _ & _ & Hmanager).
    set (r := originated env value pid months (defaultInterestRateBPS (manager w))
                (valueUSD property) monthly) in *.
    assert (Hterms : loan_terms r) by (apply originated_terms; assumption).
    split.
    + rewrite Hmanager. reflexivity.
    + rewrite Hmanager. assumption.
    + intros q.
      rewrite (getMortgage_inserted pid q r w w') by (rewrite Hmanager; reflexivity).
      destruct (decide (pid = q)); [|apply Hloans].
      right. split; [left; reflexivity | assumption].
    + rewrite Hmanager. cbn [totalActiveMortgages mortgages].
      rewrite active_loans_insert, Hcount, (active_loans_delete _ pid).
      fold (getMortgage pid w). rewrite Hnone.
      rewrite (bool_decide_eq_true_2 (status r = Active)) by reflexivity.
      rewrite (bool_decide_eq_false_2 (None_ = Active)) by discriminate. lia.
  - pose proof (makePayment_Ok _ _ _ _ _ H)
      as (i & p' & Hactive & _).
    pose proof (makePayment_manager _ _ _ _ _ H) as (Hone & Hmanager).
    destruct (Hloans pid) as [[Hnone _]|[_ Hterms]]; [congruence|].
    destruct (paid_terms env value _ Hactive Hterms) as (Hterms' & Hcases).
    split.
    + rewrite Hmanager. reflexivity.
    + rewrite Hmanager. assumption.
    + intros q.
      rewrite (getMortgage_inserted pid q (after_payment env value (getMortgage pid w))
                 w w') by (rewrite Hmanager; reflexivity).
      destruct (decide (pid = q)); [|apply Hloans].
      right. split; [|assumption].
      destruct Hcases as [[Hs _]|[Hs _]]; auto.
    + rewrite Hmanager. cbn [totalActiveMortgages mortgages].
      rewrite active_loans_insert, Hcount, (active_loans_delete _ pid).
      fold (getMortgage pid w).
      rewrite Hcount, (active_loans_delete _ pid) in Hone.
      fold (getMortgage pid w) in Hone.
      rewrite Hactive in *.
      rewrite bool_decide_eq_true_2 in * by reflexivity.
      destruct Hcases as [[Hs Hc]|[Hs Hc]]; rewrite Hs, Hc.
      * rewrite bool_decide_eq_true_2 by reflexivity. reflexivity.
      * rewrite bool_decide_eq_false_2 by discriminate. lia.
  - pose proof (checkDefault_manager _ _ _ _ H)
      as (Hactive & _ & [[_ ->]|(_ & Hone & Hmanager)]).
    { split; assumption. }
    destruct (Hloans pid) as [[Hnone _]|[_ Hterms]]; [congruence|].
    split.
    + rewrite Hmanager. assumption.
    + rewrite Hmanager. assumption.
    + intros q.
      rewrite (getMortgage_inserted pid q (with_status Foreclosed (getMortgage pid w))
                 w w') by (rewrite Hmanager; reflexivity).
      destruct (decide (pid = q)); [|apply Hloans].
      right. split; [right; right; reflexivity|].
      destruct Hterms as [? ? ? ? ? ? [? ?] ?].
      split; mortgage_fields; try assumption; [|discriminate].
      split; mortgage_fields; [assumption | discriminate].
    + rewrite Hmanager. cbn [totalActiveMortgages mortgages].
      rewrite active_loans_insert, Hcount, (active_loans_delete _ pid).
      fold (getMortgage pid w). mortgage_fields.
      rewrite Hactive.
      rewrite bool_decide_eq_true_2 by reflexivity.
      rewrite bool_decide_eq_false_2 by discriminate. lia.
  - unfold setDefaultInterestRate in H. invert_ok.
    split; assumption.
Qed.

Lemma world_reachable_invariant (w : World) : world_reachable w -> manager_invariant w.
Proof.
  induction 1 as [deployer self p t | w w' _ IH Hstep | w p t _ IH].
  - split.
    + reflexivity.
    + cbn. lia.
    + intros q. apply zero_loan_invariant.
    + reflexivity.
  - eapply manager_step_invariant; eassumption.
  - destruct IH as [? ? ? ?]. split; assumption.
Qed.

Lemma financed_reachable : world_reachable Scenario.financed.
Proof.
  eapply world_step.
  - apply (world_deployed Scenario.deployer Scenario.managerAddr Scenario.pool_seeded
             (Scenario.registry 100)).
  - apply (step_apply (Scenario.call Scenario.alice 20) 20 0 12).
    vm_compute. reflexivity.
Qed.

Lemma manager_step_statuses (w w' : World) (propertyId : N) :
  manager_step w w' ->
  let m := getMortgage propertyId w in
  let m' := getMortgage propertyId w' in
  m' = m \/
  (status m = None_ /\ status m' = Active) \/
  (status m = Active /\
   (status m' = Active \/ status m' = PaidOff \/ status m' = Foreclosed)).
Proof.
  intros Hstep m m'. subst m m'.
  destruct Hstep as [env value pid months w w' H | env value pid w w' H
                    | env pid w w' H | env rate w w' H].
  - pose proof (applyForMortgage_manager _ _ _ _ _ _ H)
      as (property & monthly & _ & Hnone & _ & _ & _ & _ & _ & _ & Hmanager).
    rewrite (getMortgage_inserted pid propertyId _ w w')
      by (rewrite Hmanager; reflexivity).
    destruct (decide (pid = propertyId)) as [<-|]; [|left; reflexivity].
    right. left. split; [assumption | reflexivity].
  - pose proof (makePayment_Ok _ _ _ _ _ H) as (i & p' & Hactive & _).
    pose proof (makePayment_manager _ _ _ _ _ H) as (_ & Hmanager).
    rewrite (getMortgage_inserted pid propertyId _ w w')
      by (rewrite Hmanager; reflexivity).
    destruct (decide (pid = propertyId)) as [<-|]; [|left; reflexivity].
    right. right. split; [assumption|].
    rewrite after_payment_completes. cbv zeta.
    destruct (payment_completes env value _); mortgage_fields; auto.
  - pose proof (checkDefault_manager _ _ _ _ H)
      as (Hactive & _ & [[_ ->]|(_ & _ & Hmanager)]); [left; reflexivity|].
    rewrite (getMortgage_inserted pid propertyId _ w w')
      by (rewrite Hmanager; reflexivity).
    destruct (decide (pid = propertyId)) as [<-|]; [|left; reflexivity].
    right. right. split; [assumption|]. right. right. reflexivity.
  - unfold setDefaultInterestRate in H. invert_ok. left. reflexivity.
Qed.

(** X8: the life of a loan record. Between calls a record is empty
    ([None]), active, paid off or foreclosed: [Applied] and [Defaulted] are
    never observed. A call of the manager leaves a record as it is, or
    turns an empty record active, or an active one paid off or foreclosed;
    a record that is paid off or foreclosed never changes again. *)
Theorem loan_lifecycle :
  (forall w propertyId,
     world_reachable w ->
     let s := status (getMortgage propertyId w) in
     s = None_ \/ s = Active \/ s = PaidOff \/ s = Foreclosed) /\
  (forall w w' propertyId,
     manager_step w w' ->
     let m := getMortgage propertyId w in
     let m' := getMortgage propertyId w' in
     m' = m \/
     (status m = None_ /\ status m' = Active) \/
     (status m = Active /\
      (status m' = Active \/ status m' = PaidOff \/ status m' = Foreclosed))) /\
  (forall w w' propertyId,
     manager_step w w' ->
     status (getMortgage propertyId w) = PaidOff \/
     status (getMortgage propertyId w) = Foreclosed ->
     getMortgage propertyId w' = getMortgage propertyId w).
Proof.
  split; [|split].
  - intros w propertyId Hreach s. subst s.
    destruct (world_reachable_invariant w Hreach) as [_ _ Hloans _].
    destruct (Hloans propertyId) as [[Hnone _]|[Hs _]]; tauto.
  - intros w w' propertyId Hstep. apply manager_step_statuses. assumption.
  - intros w w' propertyId Hstep Hfinal.
    destruct (manager_step_statuses w w' propertyId Hstep) as [H|[[H _]|[H _]]];
      [assumption | |]; destruct Hfinal; congruence.
Qed.

Lemma loan_lifecycle_witness :
  getMortgage 0 (Scenario.after Scenario.foreclosed
                   (setDefaultInterestRate (Scenario.call Scenario.deployer 99) 700
                      Scenario.foreclosed))
    = getMortgage 0 Scenario.foreclosed.
Proof.
  refine (proj2 (proj2 loan_lifecycle) Scenario.foreclosed _ 0 _ _).
  - apply (step_rate (Scenario.call Scenario.deployer 99) 700).
    vm_compute. reflexivity.
  - right. vm_compute. reflexivity.
Defined.

(** X9: the interest rates are capped at 20%: in every reachable world the
    default rate and the rate of every loan are at most 2000 bps. Only the
    owner sets the default rate, a higher rate is refused, and setting it
    changes no existing loan. *)
Theorem interest_rates_capped :
  (forall w,
     world_reachable w ->
     defaultInterestRateBPS (manager w) <= 2000 /\
     forall propertyId, interestRateBPS (getMortgage propertyId w) <= 2000) /\
  (forall env rateBPS w,
     (msg_sender env <> mgr_owner (manager w) ->
      setDefaultInterestRate env rateBPS w = Revert OwnableUnauthorizedAccount) /\
     (msg_sender env = mgr_owner (manager w) -> 2000 < rateBPS ->
      setDefaultInterestRate env rateBPS w = Revert RateTooHigh) /\
     (msg_sender env = mgr_owner (manager w) -> rateBPS <= 2000 ->
      exists w',
        setDefaultInterestRate env rateBPS w = Ok w' /\
        defaultInterestRateBPS (manager w') = rateBPS /\
        forall propertyId, getMortgage propertyId w' = getMortgage propertyId w)).
Proof.
  split.
  - intros w Hreach.
    destruct (world_reachable_invariant w Hreach) as [_ Hrate Hloans _].
    split; [assumption|]. intros propertyId.
    destruct (Hloans propertyId) as [[_ ->]|[_ [Hr _ _ _ _ _ _ _]]]; [cbn; lia|].
    assumption.
  - intros env rateBPS w. unfold setDefaultInterestRate. split; [|split].
    + intros Hne. apply N.eqb_neq in Hne. rewrite Hne. reflexivity.
    + intros Howner Hhigh. apply N.eqb_eq in Howner. apply N.leb_gt in Hhigh.
      rewrite Howner, Hhigh. reflexivity.
    + intros Howner Hlow. apply N.eqb_eq in Howner. apply N.leb_le in Hlow.
      rewrite Howner, Hlow. cbn [require bind].
      eexists. split; [reflexivity|]. split; reflexivity.
Qed.

Lemma interest_rates_capped_witness :
  defaultInterestRateBPS (manager Scenario.financed) <= 2000 /\
  forall propertyId, interestRateBPS (getMortgage propertyId Scenario.financed) <= 2000.
Proof. exact (proj1 interest_rates_capped Scenario.financed financed_reachable). Defined.

Lemma active_loan_balance (w : World) (propertyId : N) :
  let m := getMortgage propertyId w in
  world_reachable w ->
  status m = Active ->
  loanAmount m + downPayment m = propertyValue m /\
  downPayment m <= totalPaid m /\
  totalPaid m <= propertyValue m /\
  totalPaid m - downPayment m <= loanAmount m /\
  interestPayment m
    = Ok ((loanAmount m - (totalPaid m - downPayment m))
            * (interestRateBPS m / 12) / 10000).
Proof.
  intros m Hreach Hactive.
  destruct (world_reachable_invariant w Hreach) as [_ _ Hloans _].
  destruct (Hloans propertyId) as [[Hnone _]|[_ Hterms]]; [subst m; congruence|].
  fold m in Hterms.
  destruct Hterms as [Hrate _ Hprincipal Hvalue Hfits Hpaid _ Hwithin].
  specialize (Hwithin Hactive).
  split; [assumption|]. split; [assumption|]. split; [assumption|].
  split; [lia|].
  unfold interestPayment.
  rewrite sub_fits by assumption. cbn [bind].
  rewrite sub_fits by lia. cbn [bind].
  rewrite div_fits by discriminate. cbn [bind].
  assert (interestRateBPS m / 12 <= 166)
    by (apply (N.Div0.div_le_mono _ _ 12) in Hrate; exact Hrate).
  rewrite mul_fits by nia. cbn [bind].
  apply div_fits. discriminate.
Qed.


(** X10: the remaining balance of an active loan is always defined: in
    every reachable world an active loan has
    [loanAmount + downPayment = propertyValue] and
    [downPayment <= totalPaid <= propertyValue], so that
    [loanAmount - (totalPaid - downPayment)] does not underflow and the
    interest computation of [makePayment] never reverts. *)
Theorem remaining_balance_defined (w : World) (propertyId : N) :
  let m := getMortgage propertyId w in
  world_reachable w ->
  status m = Active ->
  loanAmount m + downPayment m = propertyValue m /\
  downPayment m <= totalPaid m /\
  totalPaid m <= propertyValue m /\
  totalPaid m - downPayment m <= loanAmount m /\
  interestPayment m
    = Ok ((loanAmount m - (totalPaid m - downPayment m))
            * (interestRateBPS m / 12) / 10000).
Proof. exact (active_loan_balance w propertyId). Qed.

Lemma remaining_balance_defined_witness :
  interestPayment (getMortgage 0 Scenario.financed)
    = Ok ((loanAmount (getMortgage 0 Scenario.financed)
           - (totalPaid (getMortgage 0 Scenario.financed)
              - downPayment (getMortgage 0 Scenario.financed)))
          * (interestRateBPS (getMortgage 0 Scenario.financed) / 12) / 10000).
Proof.
  refine (proj2 (proj2 (proj2 (proj2
            (remaining_balance_defined Scenario.financed 0 financed_reachable _))))).
  vm_compute. reflexivity.
Defined.

Lemma interest_le_monthly (principal remaining rate months : N) :
  0 < months ->
  remaining <= principal ->
  remaining * (rate / 12) / 10000
    <= (principal + principal * rate * months / (10000 * 12)) / months.
Proof.
  intros Hmonths Hle.
  set (a := remaining * (rate / 12) / 10000).
  assert (Ha : 10000 * a <= remaining * (rate / 12))
    by (apply N.Div0.mul_div_le).
  assert (Hr : 12 * (rate / 12) <= rate) by (apply N.Div0.mul_div_le).
  assert (Hq : months * a <= principal * rate * months / (10000 * 12)).
  { apply N.div_le_lower_bound; [discriminate|].
    assert (remaining * (12 * (rate / 12)) <= principal * rate) by nia.
    nia. }
  apply N.div_le_lower_bound; lia.
Qed.

Lemma expected_at_least_monthly (env : Env) (m : Mortgage) (expected : N) :
  expectedPayment env m = Ok expected -> monthlyPayment m <= expected.
Proof.
  unfold expectedPayment. intros H.
  apply bind_Ok in H as (elapsed & _ & H).
  destruct (_ <? elapsed); invert_ok; [apply N.le_add_r | lia].
Qed.

(** X11: the split of a payment never underflows for a loan with a term:
    in every reachable world, the interest on the balance of an active
    loan with [durationMonths > 0] is at most its monthly payment, hence at
    most the amount due. A loan originated with a term of 0 months has a
    monthly payment of 0: when interest is due on it, every payment
    reverts, whatever its amount. *)
Theorem interest_within_payment (w : World) (propertyId : N) :
  let m := getMortgage propertyId w in
  world_reachable w ->
  status m = Active ->
  (0 < durationMonths m ->
   exists interest,
     interestPayment m = Ok interest /\
     interest <= monthlyPayment m /\
     forall env expected, expectedPayment env m = Ok expected -> interest <= expected) /\
  (durationMonths m = 0 ->
   monthlyPayment m = 0 /\
   forall interest,
     interestPayment m = Ok interest -> 0 < interest ->
     forall env value,
       exists e, transact (makePayment env value propertyId) w = (w, Some e)).
Proof.
  intros m Hreach Hactive.
  destruct (active_loan_balance w propertyId Hreach Hactive)
    as (Hprincipal & Hdown & Hwithin & Hpaid & Hinterest).
  fold m in Hprincipal, Hdown, Hwithin, Hpaid, Hinterest.
  destruct (world_reachable_invariant w Hreach) as [_ _ Hloans _].
  destruct (Hloans propertyId) as [[Hnone _]|[_ Hterms]]; [subst m; congruence|].
  fold m in Hterms. destruct Hterms as [_ Hmonthly _ _ _ _ _ _].
  split.
  - intros Hmonths. eexists. split; [exact Hinterest|].
    assert (Hle : (loanAmount m - (totalPaid m - downPayment m))
                    * (interestRateBPS m / 12) / 10000 <= monthlyPayment m).
    { unfold calculateMonthlyPayment in Hmonthly.
      destruct (N.eqb_spec (durationMonths m) 0) as [Hz|_]; [lia|].
      invert_ok.
      apply interest_le_monthly; [assumption | lia]. }
    split; [exact Hle|].
    intros env expected Hexpected.
    pose proof (expected_at_least_monthly env m expected Hexpected). lia.
  - intros Hzero.
    assert (Hfree : monthlyPayment m = 0).
    { unfold calculateMonthlyPayment in Hmonthly. rewrite Hzero in Hmonthly.
      cbn in Hmonthly. congruence. }
    split; [assumption|].
    intros interest Hi Hpos env value. unfold transact.
    destruct (makePayment env value propertyId w) as [w'|e] eqn:H; [|eauto].
    apply makePayment_Ok in H.
    destruct H as (i & p' & _ & _ & Hexpected & Hi' & Hle & _).
    fold m in Hexpected, Hi'.
    assert (i = interest) as -> by congruence.
    unfold expectedPayment in Hexpected. rewrite Hfree in Hexpected.
    apply bind_Ok in Hexpected as (elapsed & _ & Hexpected).
    destruct (_ <? elapsed); invert_ok;
      try change (0 + 0 * LATE_FEE_BPS / BASIS_POINTS) with 0 in *; lia.
Qed.

Lemma zero_term_reachable : world_reachable Cases.zero_term.
Proof.
  eapply world_step.
  - apply (world_deployed Scenario.deployer Scenario.managerAddr Cases.pool_large
             (Scenario.registry 1000000)).
  - apply (step_apply (Scenario.call Scenario.alice 20) 100000 0 0).
    vm_compute. reflexivity.
Qed.

Lemma interest_within_payment_witness :
  monthlyPayment (getMortgage 0 Cases.zero_term) = 0 /\
  exists e,
    transact (makePayment (Scenario.call Scenario.alice 30) 0 0) Cases.zero_term
      = (Cases.zero_term, Some e).
Proof.
  assert (Hactive : status (getMortgage 0 Cases.zero_term) = Active)
    by (vm_compute; reflexivity).
  assert (Hzero : durationMonths (getMortgage 0 Cases.zero_term) = 0)
    by (vm_compute; reflexivity).
  destruct (proj2 (interest_within_payment Cases.zero_term 0 zero_term_reachable
                     Hactive) Hzero) as [Hfree Hstuck].
  split; [exact Hfree|].
  apply (Hstuck 3690); vm_compute; reflexivity.
Defined.

Lemma active_loan_counted (records : gmap N Mortgage) (k : N) :
  status (mapping_get zero_mortgage records k) = Active ->
  (1 <= active_loans records)%nat.
Proof.
  intros Hactive. rewrite (active_loans_delete records k), Hactive.
  rewrite bool_decide_eq_true_2 by reflexivity. lia.
Qed.

(** X12: the counter of active loans is exact: in every reachable world
    [totalActiveMortgages] is the number of loan records whose status is
    active, so that it is at least 1 while a loan is active and its
    decrement at completion or default does not underflow. *)
Theorem active_counter_exact (w : World) :
  world_reachable w ->
  totalActiveMortgages (manager w) = N.of_nat (active_loans (mortgages (manager w))) /\
  (forall propertyId,
     status (getMortgage propertyId w) = Active ->
     1 <= totalActiveMortgages (manager w)).
Proof.
  intros Hreach.
  destruct (world_reachable_invariant w Hreach) as [_ _ _ Hcount].
  split; [assumption|].
  intros propertyId Hactive. rewrite Hcount.
  pose proof (active_loan_counted _ _ Hactive). lia.
Qed.

Lemma active_counter_exact_witness :
  totalActiveMortgages (manager Scenario.financed)
    = N.of_nat (active_loans (mortgages (manager Scenario.financed))) /\
  (forall propertyId,
     status (getMortgage propertyId Scenario.financed) = Active ->
     1 <= totalActiveMortgages (manager Scenario.financed)).
Proof. exact (active_counter_exact Scenario.financed financed_reachable). Defined.

(** X13: the down payments stay in the manager: an application adds its
    down payment to the ether of the manager, a payment passes through to
    the pool whole, and no call of the manager ever lowers its balance. *)
Theorem down_payments_stay (w w' : World) :
  manager_step w w' ->
  mgr_balance (manager w) <= mgr_balance (manager w') /\
  (forall env value propertyId months,
     applyForMortgage env value propertyId months w = Ok w' ->
     mgr_balance (manager w') = mgr_balance (manager w) + value) /\
  (forall env value propertyId,
     makePayment env value propertyId w = Ok w' ->
     mgr_balance (manager w') = mgr_balance (manager w) /\
     pool_balance (mortgagePool w') = pool_balance (mortgagePool w) + value) /\
  (forall env propertyId,
     checkDefault env propertyId w = Ok w' ->
     mgr_balance (manager w') = mgr_balance (manager w)).
Proof.
  intros Hstep.
  assert (Happly : forall env value propertyId months,
            applyForMortgage env value propertyId months w = Ok w' ->
            mgr_balance (manager w') = mgr_balance (manager w) + value).
  { intros env value pid months H.
    pose proof (applyForMortgage_manager _ _ _ _ _ _ H)
      as (property & monthly & _ & _ & _ & _ & _ & _ & _ & _ & Hmanager).
    rewrite Hmanager. reflexivity. }
  assert (Hpay : forall env value propertyId,
            makePayment env value propertyId w = Ok w' ->
            mgr_balance (manager w') = mgr_balance (manager w) /\
            pool_balance (mortgagePool w') = pool_balance (mortgagePool w) + value).
  { intros env value pid H.
    pose proof (makePayment_manager _ _ _ _ _ H) as (_ & Hmanager).
    pose proof (makePayment_Ok _ _ _ _ _ H)
      as (i & p' & _ & _ & _ & _ & _ & _ & Hcall & Hpool & _).
    split; [rewrite Hmanager; cbn [mgr_balance]; lia|].
    rewrite Hpool. invert_pool_call Hcall. reflexivity. }
  assert (Hcheck : forall env propertyId,
            checkDefault env propertyId w = Ok w' ->
            mgr_balance (manager w') = mgr_balance (manager w)).
  { intros env pid H.
    pose proof (checkDefault_manager _ _ _ _ H)
      as (_ & _ & [[_ ->]|(_ & _ & Hmanager)]); [reflexivity|].
    rewrite Hmanager. reflexivity. }
  split; [|split; [exact Happly | split; [exact Hpay | exact Hcheck]]].
  destruct Hstep as [env value pid months w w' H | env value pid w w' H
                    | env pid w w' H | env rate w w' H].
  - rewrite (Happly _ _ _ _ H). lia.
  - destruct (Hpay _ _ _ H) as [-> _]. lia.
  - rewrite (Hcheck _ _ H). lia.
  - unfold setDefaultInterestRate in H. invert_ok. cbn. lia.
Qed.

Lemma down_payments_stay_witness :
  mgr_balance (manager (Scenario.listed 100)) <= mgr_balance (manager Scenario.financed).
Proof.
  refine (proj1 (down_payments_stay (Scenario.listed 100) Scenario.financed _)).
  apply (step_apply (Scenario.call Scenario.alice 20) 20 0 12).
  vm_compute. reflexivity.
Defined.

(** X14: the payment of exactly the amount due goes through: in a
    reachable world, the borrower of an active loan with a term who pays
    the expected amount succeeds, provided the new totals fit in 256 bits
    and the pool accepts the repayment (the manager is authorized, the
    principal portion is within the capital lent out). The loan record is
    then updated by the payment. *)
Theorem exact_payment_succeeds (env : Env) (value propertyId : N) (w : World) :
  let m := getMortgage propertyId w in
  let pool := mortgagePool w in
  let interest :=
    (loanAmount m - (totalPaid m - downPayment m)) * (interestRateBPS m / 12) / 10000 in
  world_reachable w ->
  status m = Active ->
  msg_sender env = borrower m ->
  0 < durationMonths m ->
  expectedPayment env m = Ok value ->
  (totalPaid m + value) * BASIS_POINTS < UINT256_LIMIT ->
  paymentsCount m + 1 < UINT256_LIMIT ->
  pool_entered pool = false ->
  mapping_get false (authorizedBorrowers pool) (mgr_self (manager w)) = true ->
  value - interest <= activeMortgages pool ->
  totalLiquidity pool + value < UINT256_LIMIT ->
  totalInterestEarned pool + interest < UINT256_LIMIT ->
  exists w',
    makePayment env value propertyId w = Ok w' /\
    getMortgage propertyId w' = after_payment env value m /\
    activeMortgages (mortgagePool w') = activeMortgages pool - (value - interest).
Proof.
  intros m pool interest Hreach Hactive Hborrower Hmonths Hexpected Hmul Hcount
    Hpguard Hauth Hprincipal Hliquidity Hearned.
  destruct (active_loan_balance w propertyId Hreach Hactive)
    as (_ & _ & _ & _ & Hinterest).
  fold m in Hinterest. fold interest in Hinterest.
  destruct (world_reachable_invariant w Hreach) as [Hguard _ Hloans Hcounter].
  destruct (Hloans propertyId) as [[Hnone _]|[_ Hterms]]; [subst m; congruence|].
  fold m in Hterms. destruct Hterms as [_ Hmonthly _ Hvalue _ _ _ _].
  assert (Hle : interest <= value).
  { pose proof (expected_at_least_monthly env m value Hexpected).
    assert (interest <= monthlyPayment m); [|lia].
    unfold calculateMonthlyPayment in Hmonthly.
    destruct (N.eqb_spec (durationMonths m) 0) as [Hz|_]; [lia|].
    invert_ok. subst interest.
    apply interest_le_monthly; [assumption | lia]. }
  assert (Hone : 1 <= totalActiveMortgages (manager w)).
  { rewrite Hcounter. pose proof (active_loan_counted _ _ Hactive). lia. }
  assert (Hrun : exists w', makePayment env value propertyId w = Ok w').
  { unfold makePayment, mgr_nonReentrant. rewrite Hguard.
    change (getMortgage propertyId (set_mgr_balance _ (set_mgr_entered true w)))
      with m.
    cbv zeta.
    rewrite Hactive. rewrite (bool_decide_eq_true_2 _ eq_refl). cbn [require bind].
    apply N.eqb_eq in Hborrower. rewrite Hborrower. cbn [require bind].
    rewrite Hexpected. cbn [bind].
    rewrite N.leb_refl. cbn [require bind].
    rewrite Hinterest. cbn [bind].
    rewrite sub_fits by assumption. cbn [bind].
    assert (Hlimit : totalPaid m + value < UINT256_LIMIT)
      by (unfold BASIS_POINTS in Hmul; lia).
    rewrite add_fits by assumption. cbn [bind].
    rewrite add_fits by assumption. cbn [bind].
    rewrite mul_fits by assumption. cbn [bind].
    rewrite div_fits by assumption. cbn [bind].
    world_fields.
    unfold receiveMortgagePayment, pool_nonReentrant. fold pool. rewrite Hpguard.
    pool_fields. world_fields. rewrite Hauth. cbn [require bind].
    rewrite add_fits by lia. cbn [bind].
    replace (value - interest + interest) with value by lia.
    rewrite N.eqb_refl. cbn [require bind].
    rewrite sub_fits by assumption. cbn [bind].
    rewrite add_fits by assumption. cbn [bind].
    rewrite add_fits by assumption. cbn [bind].
    destruct ((BASIS_POINTS <=? _) || (durationMonths m <=? _)).
    - unfold _completeMortgage. cbv zeta. world_fields.
      rewrite sub_fits by assumption. cbn [bind]. eauto.
    - cbn [bind]. eauto. }
  destruct Hrun as [w' Hw']. exists w'. split; [assumption|].
  pose proof (makePayment_Ok _ _ _ _ _ Hw')
    as (i & p' & _ & _ & _ & Hi & _ & _ & Hcall & Hpool & _ & Hm & _).
  fold m in Hi, Hm. split; [assumption|].
  assert (i = interest) as -> by congruence.
  rewrite Hpool. invert_pool_call Hcall. reflexivity.
Qed.

Lemma exact_payment_succeeds_witness :
  exists w',
    makePayment (Scenario.call Scenario.alice 30) 7 0 Scenario.financed = Ok w' /\
    getMortgage 0 w'
      = after_payment (Scenario.call Scenario.alice 30) 7
          (getMortgage 0 Scenario.financed) /\
    activeMortgages (mortgagePool w')
      = activeMortgages (mortgagePool Scenario.financed) - 7.
Proof.
  refine (exact_payment_succeeds (Scenario.call Scenario.alice 30) 7 0 Scenario.financed
            financed_reachable _ _ _ _ _ _ _ _ _ _ _);
    vm_compute; congruence.
Defined.





(** X16: what an origination moves. After a successful application the
    borrower holds the token, which the manager held before, and the
    property is unlisted with its value unchanged; the pool has lent
    [valueUSD - downPayment]: its capital lent out grows and its ether
    shrinks by the loan, which its balance covered; the asset is appended
    to the borrower's list and both origination events are emitted. *)
Theorem origination_effects (env : Env) (value propertyId months : N) (w w' : World) :
  applyForMortgage env value propertyId months w = Ok w' ->
  exists property,
    getProperty propertyId (propertyNFT w) = Ok property /\
    let loan := valueUSD property - value in
    let pool := mortgagePool w in
    let pool' := mortgagePool w' in
    _ownerOf propertyId (propertyNFT w) = mgr_self (manager w) /\
    nft_owner (propertyNFT w) = mgr_self (manager w) /\
    msg_sender env <> 0 /\
    _ownerOf propertyId (propertyNFT w') = msg_sender env /\
    getProperty propertyId (propertyNFT w') = Ok (unlisted property) /\
    mapping_get false (authorizedBorrowers pool) (mgr_self (manager w)) = true /\
    loan <= totalLiquidity pool - activeMortgages pool /\
    loan <= pool_balance pool /\
    activeMortgages pool' = activeMortgages pool + loan /\
    pool_balance pool' = pool_balance pool - loan /\
    totalLiquidity pool' = totalLiquidity pool /\
    pool_events pool' = MortgageFunded (msg_sender env) loan :: pool_events pool /\
    getBorrowerMortgages (msg_sender env) w'
      = getBorrowerMortgages (msg_sender env) w ++ [propertyId] /\
    mgr_events (manager w')
      = MortgageActivated propertyId (msg_sender env)
          :: MortgageApplied propertyId (msg_sender env) loan value
          :: mgr_events (manager w).
Proof.
  intros H.
  pose proof (applyForMortgage_Ok _ _ _ _ _ _ H)
    as (property & monthly & p' & t1 & t2 & _ & Hproperty & _ & _ & _ & _ & _ & _
        & Hfund & Hpool & Htransfer & Hunlist & Hnft & _ & _).
  pose proof (applyForMortgage_manager _ _ _ _ _ _ H)
    as (property' & monthly' & Hproperty' & _ & _ & _ & _ & _ & _ & _ & Hmanager).
  assert (property' = property) as -> by congruence.
  exists property. split; [assumption|]. cbv zeta.
  rewrite Hpool, Hnft. clear Hpool Hnft.
  assert (Hstored : mapping_get zero_property (properties (propertyNFT w)) propertyId
                    = property).
  { unfold getProperty in Hproperty.
    apply bind_Ok in Hproperty as ([] & _ & Hproperty). congruence. }
  subst property.
  unfold transferFrom in Htransfer.
  apply bind_Ok in Htransfer as ([] & Hto & Htransfer). apply require_Ok in Hto.
  apply bind_Ok in Htransfer as ([] & _ & Htransfer).
  apply bind_Ok in Htransfer as ([] & _ & Htransfer).
  apply bind_Ok in Htransfer as ([] & Hfrom & Htransfer). apply require_Ok in Hfrom.
  apply N.eqb_eq in Hfrom. injection Htransfer as <-.
  unfold unlistProperty, nft_onlyOwner in Hunlist.
  apply bind_Ok in Hunlist as ([] & Howner & Hunlist). apply require_Ok in Howner.
  apply N.eqb_eq in Howner. cbn [nft_owner as_manager msg_sender] in Howner.
  injection Hunlist as <-.
  invert_pool_call Hfund. unfold pool_send_value in *. invert_ok.
  pool_fields.
  split; [assumption|]. split; [symmetry; assumption|].
  split; [assumption|].
  split.
  { unfold _ownerOf, mapping_get, set_property. cbn [erc721_owners].
    rewrite lookup_insert_eq. reflexivity. }
  split.
  { rewrite getProperty_set_property.
    unfold _ownerOf, mapping_get. cbn [erc721_owners properties].
    rewrite lookup_insert_eq. cbn [from_option id].
    destruct (N.eqb_spec (msg_sender env) 0) as [Hz|_]; [contradiction|].
    rewrite decide_True by reflexivity. reflexivity. }
  do 7 (split; [first [assumption | reflexivity]|]).
  unfold getBorrowerMortgages, mapping_get. rewrite Hmanager.
  cbn [borrowerMortgages mgr_events].
  rewrite lookup_insert_eq. split; reflexivity.
Qed.

Lemma origination_effects_witness :
  exists property,
    getProperty 0 (propertyNFT (Scenario.listed 100)) = Ok property /\
    _ownerOf 0 (propertyNFT Scenario.financed) = Scenario.alice /\
    getProperty 0 (propertyNFT Scenario.financed) = Ok (unlisted property) /\
    activeMortgages (mortgagePool Scenario.financed)
      = activeMortgages (mortgagePool (Scenario.listed 100)) + (valueUSD property - 20).
Proof.
  destruct (origination_effects (Scenario.call Scenario.alice 20) 20 0 12
              (Scenario.listed 100) Scenario.financed ltac:(vm_compute; reflexivity))
    as (property & Hproperty & _ & _ & _ & Hholder & Hunlisted & _ & _ & _ & Hactive & _).
  exists property. repeat split; assumption.
Defined.

(** [never e r]: the run [r] does not revert with the error [e]. *)
Lemma never_bind {A B : Type} (e : Error) (r : result A) (k : A -> result B) :
  r <> Revert e -> (forall a, k a <> Revert e) -> bind r k <> Revert e.
Proof. destruct r as [a|e']; cbn; [auto | congruence]. Qed.

Lemma never_require (e e' : Error) (c : bool) : e' <> e -> require c e' <> Revert e.
Proof. destruct c; cbn; congruence. Qed.

Lemma never_add (e : Error) (a b : N) : e <> PanicArithmetic -> add a b <> Revert e.
Proof. intros H. unfold add. destruct (a + b <? _); congruence. Qed.

Lemma never_sub (e : Error) (a b : N) : e <> PanicArithmetic -> sub a b <> Revert e.
Proof. intros H. unfold sub. destruct (b <=? a); congruence. Qed.

Lemma never_mul (e : Error) (a b : N) : e <> PanicArithmetic -> mul a b <> Revert e.
Proof. intros H. unfold mul. destruct (a * b <? _); congruence. Qed.

Lemma never_div (e : Error) (a b : N) : e <> PanicDivisionByZero -> div a b <> Revert e.
Proof. intros H. unfold div. destruct (b =? 0); congruence. Qed.

(** Resolve a goal [r <> Revert e] along the structure of [r]. *)
Ltac never_reverts :=
  repeat first
    [ apply never_bind; [|intros ?]
    | apply never_require; discriminate
    | apply never_add; discriminate
    | apply never_sub; discriminate
    | apply never_mul; discriminate
    | apply never_div; discriminate
    | discriminate
    | match goal with
      | |- (if ?c then _ else _) <> _ => destruct c
      end ].

Lemma pool_nonReentrant_never (e : Error) (body : Pool -> result Pool) (p : Pool) :
  e <> ReentrancyGuardReentrantCall ->
  (forall q, body q <> Revert e) ->
  pool_nonReentrant body p <> Revert e.
Proof.
  intros He Hbody. unfold pool_nonReentrant.
  destruct (pool_entered p); [congruence|].
  apply never_bind; [apply Hbody | discriminate].
Qed.

Lemma activateMortgage_never (env : Env) (propertyId : N) (w : World) :
  _activateMortgage env propertyId w <> Revert InsufficientDownPayment.
Proof.
  unfold _activateMortgage. cbv zeta.
  apply never_bind; [never_reverts|intros ?].
  apply never_bind; [never_reverts|intros ?].
  apply never_bind; [|intros ?].
  { unfold fundMortgage. apply pool_nonReentrant_never; [discriminate|].
    intros q. never_reverts. }
  apply never_bind; [|intros ?].
  { unfold transferFrom. cbv zeta. never_reverts. }
  apply never_bind; [|intros ?].
  { unfold unlistProperty, nft_onlyOwner. never_reverts. }
  discriminate.
Qed.

(** X17: the Properties page and the contract agree on the minimum down
    payment: [propertyValue / 10] is [valueUSD * 1000 / 10000], so the page
    sends an application exactly when the contract's minimum is met, with
    the term in months; a down payment that the page lets through is never
    refused by the contract as too low. *)
Theorem handleApply_minimum (downPayment price years : N) (env : Env) (propertyId : N)
    (w : World) (property : Property) :
  getProperty propertyId (propertyNFT w) = Ok property ->
  valueUSD property = price ->
  (handleApply downPayment price years = Some (downPayment, years * 12) <->
   price * 1000 / 10000 <= downPayment) /\
  (handleApply downPayment price years = None <-> downPayment < price * 1000 / 10000) /\
  (forall value months,
     handleApply downPayment price years = Some (value, months) ->
     applyForMortgage env value propertyId months w
       <> Revert InsufficientDownPayment) /\
  (mgr_entered (manager w) = false ->
   isListed property = true ->
   status (getMortgage propertyId w) = None_ ->
   price * 1000 < UINT256_LIMIT ->
   handleApply downPayment price years = None ->
   forall months,
     applyForMortgage env downPayment propertyId months w
       = Revert InsufficientDownPayment).
Proof.
  intros Hproperty Hprice.
  assert (Htenth : price / 10 = price * 1000 / 10000).
  { change 10000 with (1000 * 10). rewrite (N.mul_comm price 1000).
    rewrite N.Div0.div_mul_cancel_l by discriminate. reflexivity. }
  unfold handleApply. cbv zeta. rewrite Htenth.
  split; [|split; [|split]].
  - destruct (N.ltb_spec downPayment (price * 1000 / 10000)); split;
      intros; try discriminate; try reflexivity; lia.
  - destruct (N.ltb_spec downPayment (price * 1000 / 10000)); split;
      intros; try discriminate; try reflexivity; lia.
  - intros value months Hsent.
    destruct (N.ltb_spec downPayment (price * 1000 / 10000)) as [|Hmet];
      [discriminate|].
    injection Hsent as <- <-.
    unfold applyForMortgage, mgr_nonReentrant.
    destruct (mgr_entered (manager w)); [discriminate|]. cbv zeta.
    change (propertyNFT (set_mgr_balance _ (set_mgr_entered true w)))
      with (propertyNFT w).
    rewrite Hproperty. cbn [bind].
    apply never_bind; [|discriminate].
    apply never_bind; [never_reverts|intros ?].
    apply never_bind; [never_reverts|intros ?].
    rewrite Hprice. unfold mul at 1.
    destruct (price * 1000 <? UINT256_LIMIT); [|discriminate]. cbn [bind].
    rewrite div_fits by discriminate. cbn [bind].
    change BASIS_POINTS with 10000.
    apply N.leb_le in Hmet. rewrite Hmet. cbn [require bind].
    apply never_bind; [never_reverts|intros ?].
    apply never_bind; [unfold calculateMonthlyPayment; never_reverts|intros ?].
    apply never_bind; [unfold availableLiquidity; never_reverts|intros ?].
    apply never_bind; [never_reverts|intros ?].
    apply never_bind; [never_reverts|intros ?].
    apply never_bind; [never_reverts|intros ?].
    apply activateMortgage_never.
  - intros Hguard Hlisted Hnone Hfits Hrefused months.
    destruct (N.ltb_spec downPayment (price * 1000 / 10000)) as [Hlow|];
      [|discriminate].
    unfold applyForMortgage, mgr_nonReentrant. rewrite Hguard. cbv zeta.
    change (propertyNFT (set_mgr_balance _ (set_mgr_entered true w)))
      with (propertyNFT w).
    rewrite Hproperty. cbn [bind]. rewrite Hlisted. cbn [require bind].
    change (getMortgage propertyId (set_mgr_balance _ (set_mgr_entered true w)))
      with (getMortgage propertyId w).
    rewrite Hnone, (bool_decide_eq_true_2 _ eq_refl). cbn [require bind].
    rewrite Hprice, mul_fits by assumption. cbn [bind].
    rewrite div_fits by discriminate. cbn [bind].
    change BASIS_POINTS with 10000.
    apply N.leb_gt in Hlow. rewrite Hlow. reflexivity.
Qed.

Lemma handleApply_minimum_witness :
  handleApply 20 100 1 = Some (20, 1 * 12) <-> 100 * 1000 / 10000 <= 20.
Proof.
  refine (proj1 (handleApply_minimum 20 100 1 (Scenario.call Scenario.alice 20) 0
                   (Scenario.listed 100) _ _ _)).
  - vm_compute. reflexivity.
  - reflexivity.
Defined.

(** ** Default and foreclosure *)




